(** * finance-tracker: the ledger of [script.js], embedded and verified

    The script keeps one array of transaction records, mirrors it into
    [localStorage] under the key ['transactions'] after every change, shows
    it sorted by date and derives three totals from it.  This file embeds
    that logic, together with the JavaScript built-ins it calls
    ([String.prototype.trim], [parseFloat], [parseInt], [Date.parse],
    [Array.prototype.sort], [JSON.stringify], [JSON.parse]), and proves the
    properties of the ledger's contract against it.

    The repository holds two revisions of the script.  They differ in the
    presence check of [addTransaction] and in how a deletion is confirmed;
    the type [revision] selects between them. *)

From Stdlib Require Import ZArith NArith List Bool Lia Permutation Sorted.
From Stdlib Require Import String Ascii Floats.
Import ListNotations.
Local Open Scope Z_scope.
Set Warnings "-register-all".

(** ** JavaScript strings

    A JavaScript string is a sequence of 16-bit code units.  A code unit is
    kept as its number, so every character test below is a test on numbers
    and no code unit is left out. *)

Definition jsstring := list N.

(** The code units of an ASCII literal. *)
Definition js (s : string) : jsstring :=
  map N_of_ascii (list_ascii_of_string s).

(** [a === b] on strings. *)
Fixpoint streq (a b : jsstring) : bool :=
  match a, b with
  | [], [] => true
  | x :: a', y :: b' => N.eqb x y && streq a' b'
  | _, _ => false
  end.

(** WhiteSpace and LineTerminator of ECMAScript: TAB, LF, VT, FF, CR, SP,
    NBSP, the other space separators, LS, PS and ZWNBSP. *)
Definition isWhiteSpace (c : N) : bool :=
  (existsb (N.eqb c)
     [9; 10; 11; 12; 13; 32; 160; 5760; 8232; 8233; 8239; 8287; 12288; 65279]
   || ((8192 <=? c) && (c <=? 8202)))%N.

Fixpoint trimStart (s : jsstring) : jsstring :=
  match s with
  | c :: s' => if isWhiteSpace c then trimStart s' else s
  | [] => []
  end.

Definition trimEnd (s : jsstring) : jsstring := rev (trimStart (rev s)).

(** [s.trim()] *)
Definition trim (s : jsstring) : jsstring := trimEnd (trimStart s).

(** ** Numbers read from strings *)

Definition isDigit (c : N) : bool := ((48 <=? c) && (c <=? 57))%N.

Definition digitValue (c : N) : Z := Z.of_N (c - 48).

(** The longest run of decimal digits at the head of [s]: the number it
    spells after the digits already read ([acc]), how many digits it has,
    and what follows it. *)
Fixpoint readDigits (s : jsstring) (acc : Z) (n : nat) : Z * nat * jsstring :=
  match s with
  | c :: s' =>
      if isDigit c then readDigits s' (10 * acc + digitValue c) (S n)
      else (acc, n, s)
  | [] => (acc, n, [])
  end.

(** The Number value of [m * 10^e] ([m >= 0]) with the sign [neg]: the
    nearest double, ties to even, infinite on overflow. *)
Definition roundDecimal (neg : bool) (m e : Z) : float :=
  match m with
  | Z0 => if neg then neg_zero else zero
  | Zpos p =>
      SF2Prim
        (if 0 <=? e
         then binary_round prec emax neg (p * Z.to_pos (10 ^ e)) 0
         else SFdiv prec emax (S754_finite neg p 0)
                (S754_finite false (Z.to_pos (10 ^ (- e))) 0))
  | Zneg _ => nan
  end.

(** An ExponentPart at the head of [s] ([e] or [E], an optional sign, at
    least one digit): its value and the rest; [(0, s)] when there is none. *)
Definition readExponent (s : jsstring) : Z * jsstring :=
  match s with
  | c :: s1 =>
      if (N.eqb c 101 || N.eqb c 69)%bool then
        let '(neg, s2) :=
          match s1 with
          | d :: s2 =>
              if N.eqb d 45 then (true, s2)
              else if N.eqb d 43 then (false, s2) else (false, s1)
          | [] => (false, s1)
          end in
        let '(v, n, rest) := readDigits s2 0 0%nat in
        match n with
        | O => (0, s)
        | S _ => (if neg then - v else v, rest)
        end
      else (0, s)
  | [] => (0, s)
  end.

Definition Infinity_ : jsstring := Eval compute in js "Infinity".

Fixpoint startsWith (p s : jsstring) : bool :=
  match p, s with
  | [], _ => true
  | x :: p', y :: s' => N.eqb x y && startsWith p' s'
  | _ :: _, [] => false
  end.

(** [parseFloat(s)]: leading white space is skipped, the longest prefix
    that is a StrDecimalLiteral is read, and [NaN] is the answer when there
    is none. *)
Definition parseFloat (s : jsstring) : float :=
  let t := trimStart s in
  let '(neg, u) :=
    match t with
    | c :: t' =>
        if N.eqb c 45 then (true, t')
        else if N.eqb c 43 then (false, t') else (false, t)
    | [] => (false, t)
    end in
  if startsWith Infinity_ u then (if neg then neg_infinity else infinity)
  else
    let '(ip, ni, r1) := readDigits u 0 0%nat in
    let '(m, nf, r2) :=
      match r1 with
      | c :: r1' => if N.eqb c 46 then readDigits r1' ip 0%nat else (ip, O, r1)
      | [] => (ip, O, r1)
      end in
    match (ni + nf)%nat with
    | O => nan
    | S _ =>
        let '(ex, _) := readExponent r2 in
        roundDecimal neg m (ex - Z.of_nat nf)
    end.

(** [parseInt(s, 10)]: white space, a sign and the longest run of decimal
    digits; [None] is [NaN].  The integer is kept exactly (a Number holds
    it exactly below 2^53, which covers every [Date.now()]). *)
Definition parseInt10 (s : jsstring) : option Z :=
  let t := trimStart s in
  let '(neg, u) :=
    match t with
    | c :: t' =>
        if N.eqb c 45 then (true, t')
        else if N.eqb c 43 then (false, t') else (false, t)
    | [] => (false, t)
    end in
  let '(v, n, _) := readDigits u 0 0%nat in
  match n with
  | O => None
  | S _ => Some (if neg then - v else v)
  end.

(** The decimal digits of [n >= 0], most significant first, put in front
    of [acc]; [fuel] bounds the number of digits. *)
Fixpoint digitsOf (fuel : nat) (n : Z) (acc : jsstring) : jsstring :=
  match fuel with
  | O => acc
  | S f =>
      let acc' := Z.to_N (48 + n mod 10) :: acc in
      if n <? 10 then acc' else digitsOf f (n / 10) acc'
  end.

(** [String(n)] for a safe integer [n]: a minus sign when negative, then
    the decimal digits of [n].  (Past the safe integers [String] writes
    the shortest digits that tell the Number from its neighbours, filled
    up with zeros, and from 10^21 on it writes an exponent, [1e+21]; that
    part of it is not embedded.) *)
Definition numberToString (n : Z) : jsstring :=
  match n with
  | Z0 => [48%N]
  | Zpos p => digitsOf (Pos.size_nat p) n []
  | Zneg p => 45%N :: digitsOf (Pos.size_nat p) (Zpos p) []
  end.

(** [Number.isSafeInteger(n)]: an integer of absolute value at most
    2^53 - 1.  Every value of [Date.now()] is one. *)
Definition isSafeInteger (n : Z) : bool := Z.abs n <=? 2 ^ 53 - 1.

(** ** Dates

    [Date.parse] must read the date-time string format of the standard and
    may read anything else as the engine likes.  The date-only forms
    [YYYY], [YYYY-MM] and [YYYY-MM-DD] of a day of the calendar are read
    here as the standard says (UTC midnight of that day); every other
    string is passed to [legacy], the engine's own reading. *)

Definition isLeapYear (y : Z) : bool :=
  (y mod 4 =? 0) && (negb (y mod 100 =? 0) || (y mod 400 =? 0)).

Definition daysInMonth (y m : Z) : Z :=
  if m =? 2 then (if isLeapYear y then 29 else 28)
  else if (m =? 4) || (m =? 6) || (m =? 9) || (m =? 11) then 30
  else 31.

(** Days of the year [y] before its month [m]. *)
Definition daysBeforeMonth (y m : Z) : Z :=
  fold_left (fun acc k => acc + daysInMonth y (Z.of_nat k))
    (seq 1 (Z.to_nat (m - 1))) 0.

Definition DayFromYear (y : Z) : Z :=
  365 * (y - 1970) + (y - 1969) / 4 - (y - 1901) / 100 + (y - 1601) / 400.

Definition msPerDay : Z := 86400000.

(** The time value of UTC midnight of the day [d] of month [m] of year
    [y], when that day exists. *)
Definition utcMidnight (y m d : Z) : option Z :=
  if (1 <=? m) && (m <=? 12) && (1 <=? d) && (d <=? daysInMonth y m)
  then Some ((DayFromYear y + daysBeforeMonth y m + d - 1) * msPerDay)
  else None.

(** Exactly [k] decimal digits at the head of [s]: their value and the rest. *)
Fixpoint fixedDigits (k : nat) (s : jsstring) (acc : Z) : option (Z * jsstring) :=
  match k with
  | O => Some (acc, s)
  | S k' =>
      match s with
      | c :: s' =>
          if isDigit c then fixedDigits k' s' (10 * acc + digitValue c)
          else None
      | [] => None
      end
  end.

(** The date-only forms of an existing calendar day: the time value of
    [s] when [s] is one of them. *)
Definition isoDateOnly (s : jsstring) : option Z :=
  match fixedDigits 4 s 0 with
  | None => None
  | Some (y, []) => utcMidnight y 1 1
  | Some (y, c :: s1) =>
      if negb (N.eqb c 45) then None else
      match fixedDigits 2 s1 0 with
      | None => None
      | Some (m, []) => utcMidnight y m 1
      | Some (m, c' :: s2) =>
          if negb (N.eqb c' 45) then None else
          match fixedDigits 2 s2 0 with
          | Some (d, []) => utcMidnight y m d
          | _ => None
          end
      end
  end.

Section Dates.
(** What the engine makes of any other string. *)
Variable legacy : jsstring -> option Z.

(** The time value of [new Date(s)]; [None] is [NaN], an invalid date. *)
Definition Date_parse (s : jsstring) : option Z :=
  match isoDateOnly s with
  | Some t => Some t
  | None => legacy s
  end.
End Dates.

(** The engine that reads these forms and nothing else. *)
Definition strictEngine : jsstring -> option Z := fun _ => None.

(** ** [Array.prototype.sort] *)

Section Sort.
Context {A : Type}.

(** The comparison function's result: a number, or [None] for [NaN]. *)
Variable comparefn : A -> A -> option Z.

(** SortCompare of the standard: [NaN] counts as [+0]. *)
Definition SortCompare (x y : A) : Z :=
  match comparefn x y with
  | Some v => v
  | None => 0
  end.

(** A consistent comparator for the values of [S], as the standard
    defines it. *)
Definition Consistent (S : list A) : Prop :=
  (forall a, In a S -> SortCompare a a = 0) /\
  (forall a b, In a S -> In b S ->
     SortCompare a b = 0 -> SortCompare b a = 0) /\
  (forall a b c, In a S -> In b S -> In c S ->
     SortCompare a b = 0 -> SortCompare b c = 0 -> SortCompare a c = 0) /\
  (forall a b c, In a S -> In b S -> In c S ->
     SortCompare a b < 0 -> SortCompare b c < 0 -> SortCompare a c < 0) /\
  (forall a b c, In a S -> In b S -> In c S ->
     SortCompare a b > 0 -> SortCompare b c > 0 -> SortCompare a c > 0).

(** What the standard promises of the array after [old.sort(comparefn)]:
    the same elements; and when the comparator is consistent, no element
    before one it compares greater than, and elements that compare equal
    in their original order.  With an inconsistent comparator the order
    is the engine's choice. *)
Record SortOutcome (old new : list A) : Prop := {
  sort_permutes : Permutation old new;
  sort_orders : Consistent old ->
    StronglySorted (fun x y => SortCompare x y <= 0) new;
  sort_stable : Consistent old -> forall x, In x old ->
    filter (fun y => SortCompare x y =? 0) new
    = filter (fun y => SortCompare x y =? 0) old
}.

(** A reference engine: insertion of each element before the first one
    it does not compare greater than, from the right end. *)
Fixpoint insertSorted (x : A) (l : list A) : list A :=
  match l with
  | [] => [x]
  | y :: l' =>
      if SortCompare x y <=? 0 then x :: l else y :: insertSorted x l'
  end.

Definition Array_sort (l : list A) : list A := fold_right insertSorted [] l.

(** Another engine: a top-down merge sort.  Of two heads that do not
    compare greater one way, the left one goes first. *)
Fixpoint mergeRuns (l1 : list A) : list A -> list A :=
  fix intoRight (l2 : list A) : list A :=
    match l1, l2 with
    | [], _ => l2
    | _, [] => l1
    | x :: l1', y :: l2' =>
        if SortCompare x y <=? 0 then x :: mergeRuns l1' l2
        else y :: intoRight l2'
    end.

Fixpoint mergeSortFrom (fuel : nat) (l : list A) : list A :=
  match fuel with
  | O => l
  | S f =>
      match l with
      | [] | [_] => l
      | _ :: _ :: _ =>
          let half := Nat.div2 (List.length l) in
          mergeRuns (mergeSortFrom f (firstn half l))
            (mergeSortFrom f (skipn half l))
      end
  end.

Definition mergeSort (l : list A) : list A := mergeSortFrom (List.length l) l.

(** A third engine: TimSort as V8 runs it on an array of fewer than 64
    elements.  The minimum run length is then the length of the array, so
    the sort is one call of CountAndMakeRun on the whole array followed by
    one call of BinaryInsertionSort from the end of the run, and no runs
    are merged.  (On longer arrays the engine cuts runs and merges them;
    that part is not embedded.) *)

(** The rest of the run that [previous] is in: the elements that follow
    for as long as each compares less than the one before it, in a
    descending run, or does not, in an ascending one. *)
Fixpoint takeRun (isDescending : bool) (previous : A) (l : list A)
  : list A * list A :=
  match l with
  | [] => ([], [])
  | current :: l' =>
      if Bool.eqb (SortCompare current previous <? 0) isDescending
      then
        let '(run, rest) := takeRun isDescending current l' in
        (current :: run, rest)
      else ([], l)
  end.

(** CountAndMakeRun: the run at the head of the array, reversed when it
    descends, and what follows it. *)
Definition countAndMakeRun (l : list A) : list A * list A :=
  match l with
  | elementHigh :: elementLow :: l' =>
      let isDescending := SortCompare elementLow elementHigh <? 0 in
      let '(run, rest) := takeRun isDescending elementLow l' in
      (if isDescending then rev (elementHigh :: elementLow :: run)
       else elementHigh :: elementLow :: run,
       rest)
  | _ => (l, [])
  end.

(** The loop that finds where [pivot] belongs among the elements already
    in order: [while (left < right)], halving the range at each turn;
    [steps] bounds the number of turns. *)
Fixpoint insertionPoint (steps : nat) (pivot : A) (work : list A)
  (left right : nat) : nat :=
  match steps with
  | O => left
  | S steps' =>
      if (left <? right)%nat then
        let mid := (left + Nat.div2 (right - left))%nat in
        match nth_error work mid with
        | Some element =>
            if SortCompare pivot element <? 0
            then insertionPoint steps' pivot work left mid
            else insertionPoint steps' pivot work (S mid) right
        | None => left
        end
      else left
  end.

(** BinaryInsertionSort: each element of [rest] in turn is put where it
    belongs among those before it. *)
Fixpoint binaryInsertionSort (sorted rest : list A) : list A :=
  match rest with
  | [] => sorted
  | pivot :: rest' =>
      let left :=
        insertionPoint (List.length sorted) pivot sorted 0
          (List.length sorted) in
      binaryInsertionSort (firstn left sorted ++ pivot :: skipn left sorted)
        rest'
  end.

Definition timSort (l : list A) : list A :=
  let '(run, rest) := countAndMakeRun l in binaryInsertionSort run rest.
End Sort.

(** ** The ledger's records *)

(** A transaction as [addTransaction] builds it.  [id] is the value of
    [Date.now()], an integral number of milliseconds; the other fields are
    the strings of the form's inputs. *)
Record Transaction := mkTransaction {
  id : Z;
  amount : jsstring;
  category : jsstring;
  description : jsstring;
  date : jsstring;
  type : jsstring
}.

(** ** [updateSummary] *)

Record Summary := mkSummary {
  income : float;
  expense : float;
  balance : float
}.

(** The three numbers [updateSummary] computes, before it formats them
    with two decimals for the page: the [summarize] of the contract. *)
Definition updateSummary (transactions : list Transaction) : Summary :=
  let income :=
    fold_left (fun acc t => (acc + parseFloat (amount t))%float)
      (filter (fun t => streq (type t) (js "income")) transactions) 0%float in
  let expense :=
    fold_left (fun acc t => (acc + parseFloat (amount t))%float)
      (filter (fun t => streq (type t) (js "expense")) transactions) 0%float in
  let balance := (income - expense)%float in
  mkSummary income expense balance.

(** ** JSON *)

(** The values [JSON.parse] builds.  A number is kept as the decimal
    [m * 10^e] its literal spells; the Number it stands for is the nearest
    double, which is that very integer for the ids written here.  An object
    is the list of its members in the order of the text. *)
Inductive value :=
| VNull
| VBool (b : bool)
| VNum (m e : Z)
| VStr (s : jsstring)
| VArr (elements : list value)
| VObj (members : list (jsstring * value)).

(** [o[k]]: a later member of the same name overrides an earlier one. *)
Fixpoint getProperty (k : jsstring) (members : list (jsstring * value))
  : option value :=
  match members with
  | [] => None
  | (k', v) :: rest =>
      match getProperty k rest with
      | Some v' => Some v'
      | None => if streq k' k then Some v else None
      end
  end.

(** The Number a number literal stands for: the double nearest to
    [m * 10^e].  It is a zero for a literal of zero and for one too small
    to round to anything else, as [1e-400]. *)
Definition numberValue (m e : Z) : float :=
  roundDecimal (m <? 0) (Z.abs m) e.

(** ToBoolean: [null], [false], the empty string and the Numbers [+0],
    [-0] and [NaN] are falsy; everything else is truthy. *)
Definition truthy (v : value) : bool :=
  match v with
  | VNull => false
  | VBool b => b
  | VNum m e => negb (is_zero (numberValue m e) || is_nan (numberValue m e))
  | VStr s => match s with [] => false | _ => true end
  | VArr _ | VObj _ => true
  end.

(** *** [JSON.stringify] *)

Definition hexDigit (d : N) : N := (if d <? 10 then 48 + d else 87 + d)%N.

(** [\uXXXX] with lower-case digits. *)
Definition unicodeEscape (c : N) : jsstring :=
  [92; 117; hexDigit (c / 4096 mod 16); hexDigit (c / 256 mod 16);
   hexDigit (c / 16 mod 16); hexDigit (c mod 16)]%N.

Definition isLeadSurrogate (c : N) : bool := ((55296 <=? c) && (c <=? 56319))%N.
Definition isTrailSurrogate (c : N) : bool := ((56320 <=? c) && (c <=? 57343))%N.

(** One code unit that is not the first half of a surrogate pair. *)
Definition quoteUnit (c : N) : jsstring :=
  (if c =? 8 then [92; 98]
   else if c =? 9 then [92; 116]
   else if c =? 10 then [92; 110]
   else if c =? 12 then [92; 102]
   else if c =? 13 then [92; 114]
   else if c =? 34 then [92; 34]
   else if c =? 92 then [92; 92]
   else if (c <? 32) || isLeadSurrogate c || isTrailSurrogate c
        then unicodeEscape c
   else [c])%N.

(** The inside of QuoteJSONString: a surrogate pair stays as it is, a lone
    surrogate and a control character are escaped. *)
Fixpoint quoteUnits (s : jsstring) : jsstring :=
  match s with
  | [] => []
  | c :: s1 =>
      if isLeadSurrogate c then
        match s1 with
        | d :: s2 =>
            if isTrailSurrogate d then c :: d :: quoteUnits s2
            else quoteUnit c ++ quoteUnits s1
        | [] => quoteUnit c
        end
      else quoteUnit c ++ quoteUnits s1
  end.

Definition QuoteJSONString (s : jsstring) : jsstring :=
  34%N :: quoteUnits s ++ [34%N].

(** *** [JSON.parse] *)

Definition isJSONWhiteSpace (c : N) : bool :=
  ((c =? 9) || (c =? 10) || (c =? 13) || (c =? 32))%N.

Fixpoint skipWS (s : jsstring) : jsstring :=
  match s with
  | c :: s' => if isJSONWhiteSpace c then skipWS s' else s
  | [] => []
  end.

Definition hexValue (c : N) : option N :=
  (if isDigit c then Some (c - 48)
   else if (97 <=? c) && (c <=? 102) then Some (c - 87)
   else if (65 <=? c) && (c <=? 70) then Some (c - 55)
   else None)%N.

(** The character a one-letter escape stands for. *)
Definition escapeValue (c : N) : option N :=
  (if c =? 34 then Some 34
   else if c =? 92 then Some 92
   else if c =? 47 then Some 47
   else if c =? 98 then Some 8
   else if c =? 102 then Some 12
   else if c =? 110 then Some 10
   else if c =? 114 then Some 13
   else if c =? 116 then Some 9
   else None)%N.

Definition consUnit (c : N) (r : option (jsstring * jsstring))
  : option (jsstring * jsstring) :=
  match r with
  | Some (str, rest) => Some (c :: str, rest)
  | None => None
  end.

(** A string after its opening quote: the string and what follows the
    closing quote; [None] is a syntax error. *)
Fixpoint parseChars (s : jsstring) : option (jsstring * jsstring) :=
  match s with
  | [] => None
  | c :: s1 =>
      if (c =? 34)%N then Some ([], s1)
      else if (c =? 92)%N then
        match s1 with
        | [] => None
        | e :: s2 =>
            if (e =? 117)%N then
              match s2 with
              | h1 :: h2 :: h3 :: h4 :: s3 =>
                  match hexValue h1, hexValue h2, hexValue h3, hexValue h4 with
                  | Some a, Some b, Some c', Some d =>
                      consUnit (4096 * a + 256 * b + 16 * c' + d)%N
                        (parseChars s3)
                  | _, _, _, _ => None
                  end
              | _ => None
              end
            else
              match escapeValue e with
              | Some c' => consUnit c' (parseChars s2)
              | None => None
              end
        end
      else if (c <? 32)%N then None
      else consUnit c (parseChars s1)
  end.

(** A number: [-]? digits without a superfluous leading zero, an optional
    fraction, an optional exponent. *)
Definition parseNumber (s : jsstring) : option (value * jsstring) :=
  let '(neg, s1) :=
    match s with
    | c :: s' => if (c =? 45)%N then (true, s') else (false, s)
    | [] => (false, s)
    end in
  let '(ip, ni, s2) := readDigits s1 0 0%nat in
  let leadingZero :=
    match s1 with
    | c :: _ => (c =? 48)%N && (1 <? ni)%nat
    | [] => false
    end in
  if (ni =? 0)%nat || leadingZero then None else
  let fraction :=
    match s2 with
    | c :: s2' =>
        if (c =? 46)%N then
          let '(m, nf, s3) := readDigits s2' ip 0%nat in
          if (nf =? 0)%nat then None else Some (m, nf, s3)
        else Some (ip, O, s2)
    | [] => Some (ip, O, s2)
    end in
  match fraction with
  | None => None
  | Some (m, nf, s3) =>
      let m' := if neg then - m else m in
      match s3 with
      | c :: s4 =>
          if ((c =? 101) || (c =? 69))%N then
            let '(eneg, s5) :=
              match s4 with
              | d :: s5 =>
                  if (d =? 45)%N then (true, s5)
                  else if (d =? 43)%N then (false, s5) else (false, s4)
              | [] => (false, s4)
              end in
            let '(ex, ne, s6) := readDigits s5 0 0%nat in
            if (ne =? 0)%nat then None
            else Some (VNum m' ((if eneg then - ex else ex) - Z.of_nat nf), s6)
          else Some (VNum m' (- Z.of_nat nf), s3)
      | [] => Some (VNum m' (- Z.of_nat nf), s3)
      end
  end.

(** [s] without its prefix [lit]. *)
Fixpoint expect (lit s : jsstring) : option jsstring :=
  match lit, s with
  | [], _ => Some s
  | x :: lit', y :: s' => if (x =? y)%N then expect lit' s' else None
  | _ :: _, [] => None
  end.

(** The outcome of a parser that recurses into nested values: a result and
    the unread text, a syntax error, or too little [fuel] for the nesting. *)
Inductive parsed (A : Type) :=
| Parsed (a : A) (rest : jsstring)
| SyntaxError
| OutOfFuel.
Arguments Parsed {A} a rest.
Arguments SyntaxError {A}.
Arguments OutOfFuel {A}.

Definition literal (lit : string) (v : value) (s : jsstring) : parsed value :=
  match expect (js lit) s with
  | Some rest => Parsed v rest
  | None => SyntaxError
  end.

(** A value with the white space before it; the elements of an array after
    its bracket, up to the closing one; the members of an object likewise. *)
Fixpoint parseValue (fuel : nat) (s : jsstring) : parsed value :=
  match fuel with
  | O => OutOfFuel
  | S f =>
      match skipWS s with
      | [] => SyntaxError
      | c :: s1 =>
          if (c =? 34)%N then
            match parseChars s1 with
            | Some (str, rest) => Parsed (VStr str) rest
            | None => SyntaxError
            end
          else if (c =? 91)%N then
            match skipWS s1 with
            | d :: s2 =>
                if (d =? 93)%N then Parsed (VArr []) s2
                else
                  match parseElements f s1 with
                  | Parsed vs rest => Parsed (VArr vs) rest
                  | SyntaxError => SyntaxError
                  | OutOfFuel => OutOfFuel
                  end
            | [] => SyntaxError
            end
          else if (c =? 123)%N then
            match skipWS s1 with
            | d :: s2 =>
                if (d =? 125)%N then Parsed (VObj []) s2
                else
                  match parseMembers f s1 with
                  | Parsed ms rest => Parsed (VObj ms) rest
                  | SyntaxError => SyntaxError
                  | OutOfFuel => OutOfFuel
                  end
            | [] => SyntaxError
            end
          else if (c =? 110)%N then literal "null" VNull (c :: s1)
          else if (c =? 116)%N then literal "true" (VBool true) (c :: s1)
          else if (c =? 102)%N then literal "false" (VBool false) (c :: s1)
          else
            match parseNumber (c :: s1) with
            | Some (v, rest) => Parsed v rest
            | None => SyntaxError
            end
      end
  end
with parseElements (fuel : nat) (s : jsstring) : parsed (list value) :=
  match fuel with
  | O => OutOfFuel
  | S f =>
      match parseValue f s with
      | Parsed v r =>
          match skipWS r with
          | c :: r1 =>
              if (c =? 44)%N then
                match parseElements f r1 with
                | Parsed vs r2 => Parsed (v :: vs) r2
                | SyntaxError => SyntaxError
                | OutOfFuel => OutOfFuel
                end
              else if (c =? 93)%N then Parsed [v] r1
              else SyntaxError
          | [] => SyntaxError
          end
      | SyntaxError => SyntaxError
      | OutOfFuel => OutOfFuel
      end
  end
with parseMembers (fuel : nat) (s : jsstring)
  : parsed (list (jsstring * value)) :=
  match fuel with
  | O => OutOfFuel
  | S f =>
      match skipWS s with
      | c :: s1 =>
          if negb (c =? 34)%N then SyntaxError else
          match parseChars s1 with
          | None => SyntaxError
          | Some (k, r) =>
              match skipWS r with
              | d :: r1 =>
                  if negb (d =? 58)%N then SyntaxError else
                  match parseValue f r1 with
                  | Parsed v r2 =>
                      match skipWS r2 with
                      | e :: r3 =>
                          if (e =? 44)%N then
                            match parseMembers f r3 with
                            | Parsed ms r4 => Parsed ((k, v) :: ms) r4
                            | SyntaxError => SyntaxError
                            | OutOfFuel => OutOfFuel
                            end
                          else if (e =? 125)%N then Parsed [(k, v)] r3
                          else SyntaxError
                      | [] => SyntaxError
                      end
                  | SyntaxError => SyntaxError
                  | OutOfFuel => OutOfFuel
                  end
              | [] => SyntaxError
              end
          end
      | [] => SyntaxError
      end
  end.

(** How a call ends: with a value, or by throwing. *)
Inductive completion (A : Type) :=
| Normal (a : A)
| Throw (exception : string).
Arguments Normal {A} a.
Arguments Throw {A} exception.

(** [JSON.parse(text)].  A level of nesting reads a character and takes at
    most two units of fuel, so twice the length of the text is fuel enough
    ([parseValue_fuel] below). *)
Definition JSON_parse (text : jsstring) : completion value :=
  match parseValue (S (2 * List.length text)) text with
  | Parsed v rest =>
      match skipWS rest with
      | [] => Normal v
      | _ :: _ => Throw "SyntaxError"
      end
  | SyntaxError | OutOfFuel => Throw "SyntaxError"
  end.

(** *** The ledger as JSON *)

(** The object a record is: the six properties in the order of the object
    literal of [addTransaction]. *)
Definition toObject (t : Transaction) : value :=
  VObj [ (js "id", VNum (id t) 0);
         (js "amount", VStr (amount t));
         (js "category", VStr (category t));
         (js "description", VStr (description t));
         (js "date", VStr (date t));
         (js "type", VStr (type t)) ].

Definition toArray (ts : list Transaction) : value := VArr (map toObject ts).

(** The text [JSON.stringify] writes for one record. *)
Definition stringifyTransaction (t : Transaction) : jsstring :=
  js "{" ++ QuoteJSONString (js "id") ++ js ":" ++ numberToString (id t)
  ++ js "," ++ QuoteJSONString (js "amount") ++ js ":"
  ++ QuoteJSONString (amount t)
  ++ js "," ++ QuoteJSONString (js "category") ++ js ":"
  ++ QuoteJSONString (category t)
  ++ js "," ++ QuoteJSONString (js "description") ++ js ":"
  ++ QuoteJSONString (description t)
  ++ js "," ++ QuoteJSONString (js "date") ++ js ":"
  ++ QuoteJSONString (date t)
  ++ js "," ++ QuoteJSONString (js "type") ++ js ":"
  ++ QuoteJSONString (type t)
  ++ js "}".

(** The elements of an array, a comma between them. *)
Fixpoint joinElements (texts : list jsstring) : jsstring :=
  match texts with
  | [] => []
  | [x] => x
  | x :: rest => x ++ js "," ++ joinElements rest
  end.

(** [JSON.stringify(transactions)] *)
Definition JSON_stringify (ts : list Transaction) : jsstring :=
  js "[" ++ joinElements (map stringifyTransaction ts) ++ js "]".

(** The integer a JSON number is, when it is one. *)
Definition asInteger (m e : Z) : option Z :=
  if 0 <=? e then Some (m * 10 ^ e)
  else if m mod 10 ^ (- e) =? 0 then Some (m / 10 ^ (- e))
  else None.

Definition asString (v : option value) : option jsstring :=
  match v with
  | Some (VStr s) => Some s
  | _ => None
  end.

(** A value read field by field as a record. *)
Definition asTransaction (v : value) : option Transaction :=
  match v with
  | VObj ms =>
      match getProperty (js "id") ms with
      | Some (VNum m e) =>
          match asInteger m e, asString (getProperty (js "amount") ms),
                asString (getProperty (js "category") ms),
                asString (getProperty (js "description") ms),
                asString (getProperty (js "date") ms),
                asString (getProperty (js "type") ms) with
          | Some i, Some a, Some c, Some d, Some dt, Some ty =>
              Some (mkTransaction i a c d dt ty)
          | _, _, _, _, _, _ => None
          end
      | _ => None
      end
  | _ => None
  end.

Fixpoint asTransactions (vs : list value) : option (list Transaction) :=
  match vs with
  | [] => Some []
  | v :: vs' =>
      match asTransaction v, asTransactions vs' with
      | Some t, Some ts => Some (t :: ts)
      | _, _ => None
      end
  end.

Definition asLedger (v : value) : option (list Transaction) :=
  match v with
  | VArr vs => asTransactions vs
  | _ => None
  end.

(** ** [localStorage] *)

Definition Storage := jsstring -> option jsstring.

(** [storage.getItem(k)]; [None] is [null]. *)
Definition getItem (storage : Storage) (k : jsstring) : option jsstring :=
  storage k.

Definition setItem (storage : Storage) (k v : jsstring) : Storage :=
  fun k' => if streq k' k then Some v else storage k'.

Definition emptyStorage : Storage := fun _ => None.

(** The initial value of [transactions]:
    [JSON.parse(localStorage.getItem('transactions')) || []].
    [JSON.parse(null)] parses the text ["null"]. *)
Definition load (storage : Storage) : completion value :=
  let text :=
    match getItem storage (js "transactions") with
    | Some blob => blob
    | None => js "null"
    end in
  match JSON_parse text with
  | Normal v => Normal (if truthy v then v else VArr [])
  | Throw e => Throw e
  end.

(** ** The page's state and its handlers *)

Inductive revision := ScriptJs | Part000.

(** What a button of the modal does when clicked, after the modal hides. *)
Inductive action :=
| NoAction
| DeleteAction (id : option Z).

Record Button := mkButton {
  buttonText : string;
  buttonClass : string;
  buttonAction : action
}.

Record Modal := mkModal {
  modalTitle : string;
  modalText : string;
  modalButtons : list Button
}.

(** [transactions], the storage, and the modal when it is displayed. *)
Record State := mkState {
  transactions : list Transaction;
  localStorage : Storage;
  modal : option Modal
}.

(** The values of the form's inputs at a submit. *)
Record Form := mkForm {
  amountInput : jsstring;
  categoryInput : jsstring;
  descriptionInput : jsstring;
  dateInput : jsstring;
  typeInput : jsstring
}.

Definition showModal (title text : string) (buttons : list Button)
  (st : State) : State :=
  mkState (transactions st) (localStorage st)
    (Some (mkModal title text buttons)).

Definition saveTransactions (st : State) : State :=
  mkState (transactions st)
    (setItem (localStorage st) (js "transactions")
       (JSON_stringify (transactions st)))
    (modal st).

(** [!s] on a string. *)
Definition falsy (s : jsstring) : bool :=
  match s with
  | [] => true
  | _ :: _ => false
  end.

(** The condition under which [addTransaction] refuses the form. *)
Definition missingRequired (r : revision) (f : Form) : bool :=
  match r with
  | ScriptJs =>
      streq (trim (amountInput f)) (js "")
      || streq (trim (categoryInput f)) (js "")
      || streq (trim (dateInput f)) (js "")
      || streq (typeInput f) (js "")
  | Part000 =>
      falsy (amountInput f) || falsy (categoryInput f)
      || falsy (dateInput f) || falsy (typeInput f)
  end.

Definition validationText (r : revision) : string :=
  match r with
  | ScriptJs =>
      "Please fill out all required fields: Amount, Category, Date, and Type."
  | Part000 => "Please fill out all required fields."
  end.

(** [addTransaction], at a submit of the form [f] when [Date.now()] is
    [now]. *)
Definition addTransaction (r : revision) (now : Z) (f : Form) (st : State)
  : State :=
  if missingRequired r f then
    showModal "Validation Error" (validationText r)
      [mkButton "OK" "btn-primary" NoAction] st
  else
    let newTransaction :=
      mkTransaction now (amountInput f) (categoryInput f)
        (descriptionInput f) (dateInput f) (typeInput f) in
    saveTransactions
      (mkState (transactions st ++ [newTransaction]) (localStorage st)
         (modal st)).

(** [t.id !== id], where [id] may be [NaN]. *)
Definition differsFrom (id0 : option Z) (t : Transaction) : bool :=
  match id0 with
  | Some n => negb (id t =? n)
  | None => true
  end.

(** The deletion once confirmed: the body shared by both revisions. *)
Definition removeTransaction (id0 : option Z) (st : State) : State :=
  saveTransactions
    (mkState (filter (differsFrom id0) (transactions st)) (localStorage st)
       (modal st)).

(** [handleListClick] for a click on an element whose closest delete
    button, if any, carries [data-id = dataId].  [confirmed] is the answer
    of the browser's [confirm], which only [Part000] asks. *)
Definition handleListClick (r : revision) (dataId : option jsstring)
  (confirmed : bool) (st : State) : State :=
  match dataId with
  | None => st
  | Some d =>
      let id0 := parseInt10 d in
      match r with
      | ScriptJs =>
          showModal "Confirm Deletion"
            "Are you sure you want to delete this transaction?"
            [mkButton "Cancel" "btn-secondary" NoAction;
             mkButton "Delete" "btn-danger" (DeleteAction id0)] st
      | Part000 => if confirmed then removeTransaction id0 st else st
      end
  end.

(** A click on the [n]-th button of the modal: the modal hides, then the
    button's action runs. *)
Definition clickModalButton (n : nat) (st : State) : State :=
  match modal st with
  | None => st
  | Some m =>
      match nth_error (modalButtons m) n with
      | None => st
      | Some b =>
          let hidden := mkState (transactions st) (localStorage st) None in
          match buttonAction b with
          | NoAction => hidden
          | DeleteAction id0 => removeTransaction id0 hidden
          end
      end
  end.

(** ** [renderTransactions] *)

Section Rendering.
Variable legacy : jsstring -> option Z.

(** The comparison function of the sort:
    [new Date(b.date) - new Date(a.date)]. *)
Definition byDateDescending (a b : Transaction) : option Z :=
  match Date_parse legacy (date b), Date_parse legacy (date a) with
  | Some tb, Some ta => Some (tb - ta)
  | _, _ => None
  end.

(** [rows] may be the order in which [renderTransactions] shows
    [transactions]: an outcome of sorting a copy of it. *)
Definition Listed (transactions rows : list Transaction) : Prop :=
  SortOutcome byDateDescending transactions rows.

(** The rows as the reference engine orders them. *)
Definition sortedTransactions (transactions : list Transaction)
  : list Transaction :=
  Array_sort byDateDescending transactions.
End Rendering.

(** ** The contract's vocabulary *)

(** The sum of a list of Numbers, taken from the left as [reduce] does,
    starting from [0]. *)
Fixpoint sumFrom (acc : float) (xs : list float) : float :=
  match xs with
  | [] => acc
  | x :: xs' => sumFrom (acc + x)%float xs'
  end.

Definition jsstring_eq_dec : forall a b : jsstring, {a = b} + {a <> b} :=
  list_eq_dec N.eq_dec.

(** The records of a given type, in the order of the collection. *)
Definition ofType (ty : string) (ts : list Transaction) : list Transaction :=
  filter (fun t => if jsstring_eq_dec (type t) (js ty) then true else false) ts.

(** The parsed amounts of the records of a given type. *)
Definition parsedAmounts (ty : string) (ts : list Transaction) : list float :=
  map (fun t => parseFloat (amount t)) (ofType ty ts).

(** [s] holds nothing but white space. *)
Definition whiteSpaceOnly (s : jsstring) : Prop :=
  Forall (fun c => isWhiteSpace c = true) s.

(** [l1] is [l2] with some elements left out, the others in their order. *)
Inductive Subsequence {A : Type} : list A -> list A -> Prop :=
| sub_nil : Subsequence [] []
| sub_skip : forall x l1 l2, Subsequence l1 l2 -> Subsequence l1 (x :: l2)
| sub_keep : forall x l1 l2, Subsequence l1 l2 -> Subsequence (x :: l1) (x :: l2).

Definition Transaction_eq_dec : forall a b : Transaction, {a = b} + {a <> b}.
Proof.
  decide equality; try apply jsstring_eq_dec; apply Z.eq_dec.
Defined.

(** The form passes the presence check of the revision. *)
Definition validForm (r : revision) (f : Form) : Prop :=
  match r with
  | ScriptJs =>
      trim (amountInput f) <> [] /\ trim (categoryInput f) <> []
      /\ trim (dateInput f) <> [] /\ typeInput f <> []
  | Part000 =>
      amountInput f <> [] /\ categoryInput f <> []
      /\ dateInput f <> [] /\ typeInput f <> []
  end.

(** The record [addTransaction] makes of a form at the instant [now]. *)
Definition recordOf (now : Z) (f : Form) : Transaction :=
  mkTransaction now (amountInput f) (categoryInput f) (descriptionInput f)
    (dateInput f) (typeInput f).

(** The modal of a refused submit. *)
Definition validationModal (r : revision) : Modal :=
  mkModal "Validation Error" (validationText r)
    [mkButton "OK" "btn-primary" NoAction].

(** A deletion carried through: the click on the delete button of a row
    whose [data-id] is [d], and the confirmation the revision asks for. *)
Definition confirmedDelete (r : revision) (d : jsstring) (st : State) : State :=
  match r with
  | ScriptJs => clickModalButton 1 (handleListClick ScriptJs (Some d) false st)
  | Part000 => handleListClick Part000 (Some d) true st
  end.

Definition form (a c d dt ty : string) : Form :=
  mkForm (js a) (js c) (js d) (js dt) (js ty).

Definition record (i : Z) (a c d dt ty : string) : Transaction :=
  mkTransaction i (js a) (js c) (js d) (js dt) (js ty).

Definition initial : State := mkState [] emptyStorage None.

(** [x] is dated no earlier than [y], as far as both have a date. *)
Definition notEarlier (legacy : jsstring -> option Z) (x y : Transaction)
  : Prop :=
  forall tx ty,
    Date_parse legacy (date x) = Some tx ->
    Date_parse legacy (date y) = Some ty -> ty <= tx.

(** The records of a collection have dates the engine can read. *)
Definition datesValid (legacy : jsstring -> option Z)
  (ts : list Transaction) : Prop :=
  forall t, In t ts -> Date_parse legacy (date t) <> None.

(** [y] falls on the same day as [x]: the two dates are the same instant. *)
Definition sameDay (legacy : jsstring -> option Z) (x y : Transaction)
  : bool :=
  match Date_parse legacy (date x), Date_parse legacy (date y) with
  | Some tx, Some ty => tx =? ty
  | None, None => true
  | _, _ => false
  end.

(** [y] carries the same date string as [x]. *)
Definition sameDate (x y : Transaction) : bool := streq (date x) (date y).

(** The instant of a record's date; [0] stands in for an invalid one. *)
Definition instant (legacy : jsstring -> option Z) (t : Transaction) : Z :=
  match Date_parse legacy (date t) with
  | Some v => v
  | None => 0
  end.

(** ** The page's events

    [init] registers [addTransaction] for the form's submit and
    [handleListClick] for clicks in the list; [showModal] registers the
    hide-then-act listener on each button of the modal. *)

Inductive event :=
| Submit (now : Z) (f : Form)
| ListClick (dataId : option jsstring) (confirmed : bool)
| ModalClick (n : nat).

(** The listener an event reaches. *)
Definition handle (r : revision) (ev : event) (st : State) : State :=
  match ev with
  | Submit now f => addTransaction r now f st
  | ListClick dataId confirmed => handleListClick r dataId confirmed st
  | ModalClick n => clickModalButton n st
  end.

(** The events of a session, handled one after the other. *)
Definition run (r : revision) (events : list event) (st : State) : State :=
  fold_left (fun st ev => handle r ev st) events st.

(** The event that confirms a deletion: in [script.js] a click on a button
    of the modal other than its first, in the other revision a click on a
    delete button answered with OK. *)
Definition confirms (r : revision) (ev : event) : bool :=
  match r, ev with
  | ScriptJs, ModalClick (S _) => true
  | Part000, ListClick (Some _) true => true
  | _, _ => false
  end.

(** Loading the storage of [st] gives the collection of [st]. *)
Definition Reloads (st : State) : Prop :=
  load (localStorage st) = Normal (toArray (transactions st)).

(** No button of the modal deletes without being the confirmation: in
    [script.js] the first button has no action, in the other revision no
    button has one. *)
Definition modalInert (r : revision) (st : State) : Prop :=
  match modal st with
  | None => True
  | Some m =>
      match r with
      | ScriptJs =>
          match modalButtons m with
          | [] => True
          | b :: _ => buttonAction b = NoAction
          end
      | Part000 => Forall (fun b => buttonAction b = NoAction) (modalButtons m)
      end
  end.

(** ** The cells of a row *)

(** [amountClass] of [renderTransactions]. *)
Definition amountClass (t : Transaction) : jsstring :=
  if streq (type t) (js "income") then js "income" else js "expense".

(** The [data-id] attribute of the delete button of the row of [t]:
    [String(t.id)], which is [numberToString] of it when the id is a safe
    integer. *)
Definition dataId (t : Transaction) : jsstring := numberToString (id t).

(** ** The clock of a session *)

(** The instants of the submits of a session rise strictly, from above
    [bound]. *)
Fixpoint clockRises (bound : Z) (events : list event) : Prop :=
  match events with
  | [] => True
  | Submit now _ :: rest => bound < now /\ clockRises now rest
  | _ :: rest => clockRises bound rest
  end.

(** ** Calendar days as text *)

Definition digitUnit (d : Z) : N := Z.to_N (48 + d).

(** [YYYY-MM-DD]: the text of the day [d] of month [m] of year [y], as a
    date input gives it. *)
Definition isoDate (y m d : Z) : jsstring :=
  [digitUnit (y / 1000 mod 10); digitUnit (y / 100 mod 10);
   digitUnit (y / 10 mod 10); digitUnit (y mod 10); 45%N;
   digitUnit (m / 10 mod 10); digitUnit (m mod 10); 45%N;
   digitUnit (d / 10 mod 10); digitUnit (d mod 10)].

(** A day of the calendar, of a year of four digits. *)
Definition calendarDay (y m d : Z) : Prop :=
  0 <= y <= 9999 /\ 1 <= m <= 12 /\ 1 <= d <= daysInMonth y m.

(** The first day comes later in the calendar than the second. *)
Definition laterDay (y1 m1 d1 y2 m2 d2 : Z) : Prop :=
  y2 < y1 \/ (y1 = y2 /\ (m2 < m1 \/ (m1 = m2 /\ d2 < d1))).

(** ** Proof automation *)

(** Decides the comparisons of a code unit with constants that stand in
    the goal, dropping the cases its known range excludes. *)
Ltac unit_cases :=
  repeat match goal with
  | |- context [(?a =? ?b)%N] =>
      destruct (N.eqb_spec a b); [try (exfalso; lia)|]
  | |- context [(?a <=? ?b)%N] =>
      destruct (N.leb_spec a b); try (exfalso; lia)
  | |- context [(?a <? ?b)%N] =>
      destruct (N.ltb_spec a b); try (exfalso; lia)
  end.

(** Closes the case of a parser's outcome that is settled: not out of
    fuel, and shorter text left when something was parsed. *)
Ltac parsed_done :=
  split; [discriminate | intros ? ? E; inversion E; subst; clear E; try lia].

(** Splits on the twelve values of a month number known to lie between
    1 and 12. *)
Ltac month_cases m :=
  let H := fresh in
  assert (H : m = 1 \/ m = 2 \/ m = 3 \/ m = 4 \/ m = 5 \/ m = 6 \/ m = 7
              \/ m = 8 \/ m = 9 \/ m = 10 \/ m = 11 \/ m = 12) by lia;
  decompose [or] H; clear H; subst m.

(** * Properties *)

(** ** Strings *)

Lemma streq_true_iff (a b : jsstring) : streq a b = true <-> a = b.
Proof.
  revert b; induction a as [|x a IH]; destruct b as [|y b]; simpl;
    try (split; [discriminate | congruence]); try tauto.
  rewrite andb_true_iff, N.eqb_eq, IH.
  split; [intros [-> ->]; reflexivity | intros H; inversion H; auto].
Qed.

Lemma streq_refl (a : jsstring) : streq a a = true.
Proof. apply streq_true_iff; reflexivity. Qed.

Lemma streq_empty (s : jsstring) : streq s (js "") = falsy s.
Proof. destruct s; reflexivity. Qed.

Lemma falsy_true_iff (s : jsstring) : falsy s = true <-> s = [].
Proof. destruct s; simpl; split; congruence. Qed.

Lemma trimStart_whiteSpaceOnly (s : jsstring) :
  trimStart s = [] <-> whiteSpaceOnly s.
Proof.
  unfold whiteSpaceOnly; induction s as [|c s IH]; simpl.
  - split; auto.
  - destruct (isWhiteSpace c) eqn:E.
    + rewrite IH; split; [constructor; auto | inversion 1; auto].
    + split; [discriminate | inversion 1; congruence].
Qed.

Lemma trimStart_suffix (s : jsstring) :
  exists p, s = p ++ trimStart s /\ whiteSpaceOnly p.
Proof.
  induction s as [|c s [p [Hs Hp]]]; simpl.
  - exists []; split; [reflexivity | constructor].
  - destruct (isWhiteSpace c) eqn:E.
    + exists (c :: p); split; [simpl; congruence | constructor; auto].
    + exists []; split; [reflexivity | constructor].
Qed.

(** [s.trim()] is empty exactly when [s] holds nothing but white space. *)
Lemma trim_empty_iff (s : jsstring) : trim s = [] <-> whiteSpaceOnly s.
Proof.
  unfold trim, trimEnd; split.
  - intros H.
    assert (H1 : trimStart (rev (trimStart s)) = []).
    { rewrite <- (rev_involutive (trimStart (rev (trimStart s)))), H.
      reflexivity. }
    apply trimStart_whiteSpaceOnly in H1.
    destruct (trimStart_suffix s) as [p [Hs Hp]].
    rewrite Hs; apply Forall_app; split; [exact Hp|].
    unfold whiteSpaceOnly in *; rewrite Forall_forall in *.
    intros c Hc; apply H1, in_rev; rewrite rev_involutive; exact Hc.
  - intros H; apply trimStart_whiteSpaceOnly in H; rewrite H; reflexivity.
Qed.

(** ** The summary *)

Lemma fold_left_sumFrom (f : Transaction -> float) (l : list Transaction)
  (acc : float) :
  fold_left (fun a t => (a + f t)%float) l acc = sumFrom acc (map f l).
Proof.
  revert acc; induction l as [|t l IH]; intros acc; simpl; auto.
Qed.

Lemma filter_type_ofType (ty : string) (ts : list Transaction) :
  filter (fun t => streq (type t) (js ty)) ts = ofType ty ts.
Proof.
  unfold ofType; apply filter_ext; intros t.
  destruct (jsstring_eq_dec (type t) (js ty)) as [E|E].
  - apply streq_true_iff; exact E.
  - destruct (streq (type t) (js ty)) eqn:H; auto.
    apply streq_true_iff in H; contradiction.
Qed.

(** C1.  For every collection, [updateSummary] has as income the sum of the
    parsed amounts of the records of type income, as expense the sum of
    the parsed amounts of the records of type expense, and as balance the
    income minus the expense; on the empty collection the three are zero. *)
Theorem summarize_sums (ts : list Transaction) :
  income (updateSummary ts) = sumFrom 0 (parsedAmounts "income" ts)
  /\ expense (updateSummary ts) = sumFrom 0 (parsedAmounts "expense" ts)
  /\ balance (updateSummary ts)
     = (income (updateSummary ts) - expense (updateSummary ts))%float
  /\ updateSummary [] = mkSummary 0 0 0.
Proof.
  unfold updateSummary, parsedAmounts; simpl.
  rewrite !fold_left_sumFrom, !filter_type_ofType.
  repeat split; reflexivity.
Qed.

(** The two scenarios of the contract. *)
Example summarize_one_expense :
  updateSummary
    (transactions
       (addTransaction ScriptJs 1714521600000
          (form "50.00" "Food" "" "2024-05-01" "expense") initial))
  = mkSummary 0 50 (-50).
Proof. vm_compute. reflexivity. Qed.

Example summarize_income_then_expense :
  updateSummary
    (transactions
       (addTransaction ScriptJs 2
          (form "30" "Food" "" "2024-05-02" "expense")
          (addTransaction ScriptJs 1
             (form "100" "Pay" "" "2024-05-01" "income") initial)))
  = mkSummary 100 30 70.
Proof. vm_compute. reflexivity. Qed.

(** ** Adding *)

Lemma falsy_false_iff (s : jsstring) : falsy s = false <-> s <> [].
Proof. destruct s; simpl; split; congruence. Qed.

Lemma missingRequired_false_iff (r : revision) (f : Form) :
  missingRequired r f = false <-> validForm r f.
Proof.
  destruct r; unfold missingRequired, validForm;
    rewrite ?streq_empty, !orb_false_iff, !falsy_false_iff; tauto.
Qed.

Lemma addTransaction_refused (r : revision) (now : Z) (f : Form) (st : State) :
  missingRequired r f = true ->
  addTransaction r now f st
  = mkState (transactions st) (localStorage st) (Some (validationModal r)).
Proof. intros H; unfold addTransaction; rewrite H; reflexivity. Qed.

Lemma addTransaction_accepted (r : revision) (now : Z) (f : Form) (st : State) :
  missingRequired r f = false ->
  addTransaction r now f st
  = saveTransactions
      (mkState (transactions st ++ [recordOf now f]) (localStorage st)
         (modal st)).
Proof. intros H; unfold addTransaction; rewrite H; reflexivity. Qed.

Lemma getItem_setItem (storage : Storage) (k v : jsstring) :
  getItem (setItem storage k v) k = Some v.
Proof. unfold getItem, setItem; rewrite streq_refl; reflexivity. Qed.

(** C4.  A submit whose amount, category, date or type is empty is
    refused: the validation modal is shown, and the collection and the
    storage stay as they were.  This holds in both revisions. *)
Theorem add_refuses_empty_field
  (r : revision) (now : Z) (f : Form) (st : State) :
  amountInput f = [] \/ categoryInput f = [] \/ dateInput f = []
  \/ typeInput f = [] ->
  modal (addTransaction r now f st) = Some (validationModal r)
  /\ transactions (addTransaction r now f st) = transactions st
  /\ localStorage (addTransaction r now f st) = localStorage st.
Proof.
  intros H.
  rewrite addTransaction_refused; [repeat split|].
  destruct (missingRequired r f) eqn:E; [reflexivity|].
  apply missingRequired_false_iff in E.
  destruct r; simpl in E; destruct E as (Ha & Hc & Hd & Ht);
    destruct H as [H|[H|[H|H]]]; rewrite H in *;
    solve [congruence | exfalso; auto].
Qed.

Lemma add_refuses_empty_field_witness :
  (amountInput (form "50.00" "" "lunch" "2024-05-01" "expense") = []
   \/ categoryInput (form "50.00" "" "lunch" "2024-05-01" "expense") = []
   \/ dateInput (form "50.00" "" "lunch" "2024-05-01" "expense") = []
   \/ typeInput (form "50.00" "" "lunch" "2024-05-01" "expense") = [])
  /\ modal (addTransaction Part000 1714521600000
              (form "50.00" "" "lunch" "2024-05-01" "expense") initial)
     = Some (validationModal Part000)
  /\ transactions (addTransaction Part000 1714521600000
                     (form "50.00" "" "lunch" "2024-05-01" "expense") initial)
     = transactions initial
  /\ localStorage (addTransaction Part000 1714521600000
                     (form "50.00" "" "lunch" "2024-05-01" "expense") initial)
     = localStorage initial.
Proof.
  split; [right; left; reflexivity|].
  apply (add_refuses_empty_field Part000 1714521600000
           (form "50.00" "" "lunch" "2024-05-01" "expense") initial).
  right; left; reflexivity.
Defined.

(** C10.  In [script.js] the presence check trims amount, category and
    date first: a submit in which one of them holds nothing but white
    space is refused and nothing changes.  The check is stricter than that
    of the other revision: whatever the other refuses it refuses, and it
    refuses a form the other accepts. *)
Theorem script_refuses_blank_field :
  (forall (now : Z) (f : Form) (st : State),
     whiteSpaceOnly (amountInput f) \/ whiteSpaceOnly (categoryInput f)
     \/ whiteSpaceOnly (dateInput f) ->
     modal (addTransaction ScriptJs now f st) = Some (validationModal ScriptJs)
     /\ transactions (addTransaction ScriptJs now f st) = transactions st
     /\ localStorage (addTransaction ScriptJs now f st) = localStorage st)
  /\ (forall f, missingRequired Part000 f = true ->
                missingRequired ScriptJs f = true)
  /\ (exists f, missingRequired ScriptJs f = true
                /\ missingRequired Part000 f = false).
Proof.
  split; [|split].
  - intros now f st H.
    rewrite addTransaction_refused; [repeat split|].
    unfold missingRequired.
    destruct H as [H|[H|H]]; apply trim_empty_iff in H; rewrite H; simpl;
      rewrite ?orb_true_r; reflexivity.
  - intros f H.
    destruct (missingRequired ScriptJs f) eqn:E; [reflexivity|].
    apply missingRequired_false_iff in E; destruct E as (Ha & Hc & Hd & Ht).
    assert (E : missingRequired Part000 f = false).
    { apply missingRequired_false_iff; repeat split; auto;
        intros H0; rewrite H0 in *; auto. }
    congruence.
  - exists (form "50.00" " " "" "2024-05-01" "expense").
    split; reflexivity.
Qed.

Lemma script_refuses_blank_field_witness :
  whiteSpaceOnly (categoryInput (form "50.00" "  " "" "2024-05-01" "expense"))
  /\ modal (addTransaction ScriptJs 7
              (form "50.00" "  " "" "2024-05-01" "expense") initial)
     = Some (validationModal ScriptJs)
  /\ transactions (addTransaction ScriptJs 7
                     (form "50.00" "  " "" "2024-05-01" "expense") initial)
     = transactions initial
  /\ localStorage (addTransaction ScriptJs 7
                     (form "50.00" "  " "" "2024-05-01" "expense") initial)
     = localStorage initial.
Proof.
  split; [repeat constructor|].
  apply (proj1 script_refuses_blank_field 7
           (form "50.00" "  " "" "2024-05-01" "expense") initial).
  right; left; repeat constructor.
Defined.

(** C2, as stated, fails in [script.js]: every required field of this form
    is non-empty and its type is set, yet nothing is appended, because the
    category is blank once trimmed. *)
Lemma add_nonempty_form_not_appended :
  (amountInput (form "50.00" " " "" "2024-05-01" "expense") <> []
   /\ categoryInput (form "50.00" " " "" "2024-05-01" "expense") <> []
   /\ dateInput (form "50.00" " " "" "2024-05-01" "expense") <> []
   /\ typeInput (form "50.00" " " "" "2024-05-01" "expense") <> [])
  /\ transactions
       (addTransaction ScriptJs 1714521600000
          (form "50.00" " " "" "2024-05-01" "expense") initial)
     = transactions initial
  /\ transactions
       (addTransaction ScriptJs 1714521600000
          (form "50.00" " " "" "2024-05-01" "expense") initial)
     <> transactions initial
        ++ [recordOf 1714521600000
              (form "50.00" " " "" "2024-05-01" "expense")].
Proof.
  split; [repeat split; discriminate|].
  split; [reflexivity | discriminate].
Qed.

(** C2, amended.  For every form that passes the presence check of the
    revision (amount, category and date non-empty, after trimming in
    [script.js], and a type set), [addTransaction] appends exactly one
    record, whose fields are the form's and whose id is the instant of the
    submit; it stores the serialized collection; and the list shown
    afterwards holds that record and the records shown before, no more. *)
Theorem add_appends_one_record
  (legacy : jsstring -> option Z) (r : revision) (now : Z) (f : Form)
  (st : State) :
  validForm r f ->
  transactions (addTransaction r now f st)
  = transactions st ++ [recordOf now f]
  /\ getItem (localStorage (addTransaction r now f st)) (js "transactions")
     = Some (JSON_stringify (transactions st ++ [recordOf now f]))
  /\ modal (addTransaction r now f st) = modal st
  /\ forall before after,
       Listed legacy (transactions st) before ->
       Listed legacy (transactions (addTransaction r now f st)) after ->
       Permutation after (recordOf now f :: before)
       /\ List.length after = S (List.length before)
       /\ In (recordOf now f) after.
Proof.
  intros H; apply missingRequired_false_iff in H.
  rewrite addTransaction_accepted by exact H; simpl.
  split; [reflexivity|]; split; [apply getItem_setItem|];
    split; [reflexivity|].
  intros before after [Hb _ _] [Ha _ _].
  assert (P : Permutation after (recordOf now f :: before)).
  { rewrite <- Ha, <- Hb; symmetry; apply Permutation_cons_append. }
  split; [exact P|]; split.
  - rewrite (Permutation_length P); reflexivity.
  - apply (Permutation_in _ (Permutation_sym P)); left; reflexivity.
Qed.

Lemma add_appends_one_record_witness :
  validForm ScriptJs (form "50.00" "Food" "lunch" "2024-05-01" "expense")
  /\ transactions
       (addTransaction ScriptJs 1714521600000
          (form "50.00" "Food" "lunch" "2024-05-01" "expense") initial)
     = [record 1714521600000 "50.00" "Food" "lunch" "2024-05-01" "expense"].
Proof.
  assert (H : validForm ScriptJs
                (form "50.00" "Food" "lunch" "2024-05-01" "expense"))
    by (repeat split; discriminate).
  split; [exact H|].
  exact (proj1 (add_appends_one_record strictEngine ScriptJs 1714521600000
                  (form "50.00" "Food" "lunch" "2024-05-01" "expense")
                  initial H)).
Defined.

(** ** Removing *)

Lemma differsFrom_true_iff (id0 : option Z) (t : Transaction) :
  differsFrom id0 t = true <-> Some (id t) <> id0.
Proof.
  destruct id0 as [n|]; simpl.
  - rewrite negb_true_iff, Z.eqb_neq; split; congruence.
  - split; [discriminate | reflexivity].
Qed.

Lemma confirmedDelete_removes (r : revision) (d : jsstring) (st : State) :
  transactions (confirmedDelete r d st)
  = filter (differsFrom (parseInt10 d)) (transactions st).
Proof. destruct r; reflexivity. Qed.

Lemma filter_all_true {A : Type} (p : A -> bool) (l : list A) :
  (forall x, In x l -> p x = true) -> filter p l = l.
Proof.
  induction l as [|x l IH]; simpl; intros H; [reflexivity|].
  rewrite (H x) by auto; rewrite IH; auto.
Qed.

Lemma filter_Subsequence {A : Type} (p : A -> bool) (l : list A) :
  Subsequence (filter p l) l.
Proof.
  induction l as [|x l IH]; simpl; [constructor|].
  destruct (p x); constructor; exact IH.
Qed.

Lemma count_occ_filter (p : Transaction -> bool) (l : list Transaction)
  (t : Transaction) :
  p t = true ->
  count_occ Transaction_eq_dec (filter p l) t
  = count_occ Transaction_eq_dec l t.
Proof.
  intros H; induction l as [|x l IH]; simpl; [reflexivity|].
  destruct (p x) eqn:E; simpl; destruct (Transaction_eq_dec x t);
    subst; congruence.
Qed.

(** C3.  For every id value (a number, or [NaN]), after the removal the
    collection holds no record of that id; when no record has that id the
    collection is left as it was.  The removal is a total function: there
    is no outcome in which it raises an error.  A confirmed deletion, in
    either revision, is this removal at the id parsed from the row. *)
Theorem remove_leaves_no_such_id (id0 : option Z) (st : State) :
  (forall t, In t (transactions (removeTransaction id0 st)) ->
             Some (id t) <> id0)
  /\ ((forall t, In t (transactions st) -> Some (id t) <> id0) ->
      transactions (removeTransaction id0 st) = transactions st)
  /\ (forall r d, parseInt10 d = id0 ->
        transactions (confirmedDelete r d st)
        = transactions (removeTransaction id0 st)).
Proof.
  simpl; split; [|split].
  - intros t H; apply filter_In in H.
    apply differsFrom_true_iff, H.
  - intros H; apply filter_all_true.
    intros t Ht; apply differsFrom_true_iff; auto.
  - intros r d <-; apply confirmedDelete_removes.
Qed.

Lemma remove_leaves_no_such_id_witness :
  (forall t, In t (transactions
                     (mkState [record 5 "1" "a" "" "2024-01-01" "income"]
                        emptyStorage None)) ->
             Some (id t) <> Some 9)
  /\ transactions
       (removeTransaction (Some 9)
          (mkState [record 5 "1" "a" "" "2024-01-01" "income"]
             emptyStorage None))
     = [record 5 "1" "a" "" "2024-01-01" "income"].
Proof.
  assert (H : forall t,
             In t (transactions
                     (mkState [record 5 "1" "a" "" "2024-01-01" "income"]
                        emptyStorage None)) ->
             Some (id t) <> Some 9).
  { intros t [<-|[]]; discriminate. }
  split; [exact H|].
  exact (proj1 (proj2 (remove_leaves_no_such_id (Some 9)
           (mkState [record 5 "1" "a" "" "2024-01-01" "income"]
              emptyStorage None))) H).
Defined.

(** C9.  A removal touches nothing but the records of the given id: every
    record of another id is still there, as often as before and with the
    fields it had; the records that remain keep their order; the modal is
    as it was. *)
Theorem remove_keeps_other_records (id0 : option Z) (st : State) :
  (forall t, In t (transactions st) -> Some (id t) <> id0 ->
             In t (transactions (removeTransaction id0 st)))
  /\ (forall t, Some (id t) <> id0 ->
        count_occ Transaction_eq_dec (transactions (removeTransaction id0 st)) t
        = count_occ Transaction_eq_dec (transactions st) t)
  /\ Subsequence (transactions (removeTransaction id0 st)) (transactions st)
  /\ modal (removeTransaction id0 st) = modal st.
Proof.
  simpl; repeat split.
  - intros t Ht Hd; apply filter_In; split; [exact Ht|].
    apply differsFrom_true_iff; exact Hd.
  - intros t Hd; apply count_occ_filter, differsFrom_true_iff; exact Hd.
  - apply filter_Subsequence.
Qed.

Lemma remove_keeps_other_records_witness :
  (In (record 5 "1" "a" "" "2024-01-01" "income")
      [record 9 "2" "b" "" "2024-01-02" "expense";
       record 5 "1" "a" "" "2024-01-01" "income"]
   /\ Some (id (record 5 "1" "a" "" "2024-01-01" "income")) <> Some 9)
  /\ In (record 5 "1" "a" "" "2024-01-01" "income")
       (transactions
          (removeTransaction (Some 9)
             (mkState [record 9 "2" "b" "" "2024-01-02" "expense";
                       record 5 "1" "a" "" "2024-01-01" "income"]
                emptyStorage None))).
Proof.
  assert (H1 : In (record 5 "1" "a" "" "2024-01-01" "income")
                 [record 9 "2" "b" "" "2024-01-02" "expense";
                  record 5 "1" "a" "" "2024-01-01" "income"])
    by (right; left; reflexivity).
  assert (H2 : Some (id (record 5 "1" "a" "" "2024-01-01" "income"))
               <> Some 9) by discriminate.
  split; [split; assumption|].
  exact (proj1 (remove_keeps_other_records (Some 9)
           (mkState [record 9 "2" "b" "" "2024-01-02" "expense";
                     record 5 "1" "a" "" "2024-01-01" "income"]
              emptyStorage None)) _ H1 H2).
Defined.

(** ** Sorting *)

Section SortFacts.
Context {A : Type}.
Variable comparefn : A -> A -> option Z.
Variable items : list A.
Hypothesis consistent : Consistent comparefn items.

Local Abbreviation cmp := (SortCompare comparefn).

Lemma cmp_refl a : In a items -> cmp a a = 0.
Proof. apply consistent. Qed.

Lemma cmp_sym a b : In a items -> In b items -> cmp a b = 0 -> cmp b a = 0.
Proof. apply consistent. Qed.

Lemma cmp_eq_trans a b c :
  In a items -> In b items -> In c items -> cmp a b = 0 -> cmp b c = 0 -> cmp a c = 0.
Proof. apply consistent. Qed.

Lemma cmp_lt_trans a b c :
  In a items -> In b items -> In c items -> cmp a b < 0 -> cmp b c < 0 -> cmp a c < 0.
Proof. apply consistent. Qed.

Lemma cmp_gt_trans a b c :
  In a items -> In b items -> In c items -> cmp a b > 0 -> cmp b c > 0 -> cmp a c > 0.
Proof. apply consistent. Qed.

Lemma cmp_gt_flip a b : In a items -> In b items -> cmp a b > 0 -> cmp b a < 0.
Proof.
  intros Ha Hb H.
  destruct (Z.lt_trichotomy (cmp b a) 0) as [L|[E|G]]; [exact L| |].
  - apply cmp_sym in E; auto; lia.
  - pose proof (cmp_gt_trans a b a Ha Hb Ha H ltac:(lia)).
    pose proof (cmp_refl a Ha); lia.
Qed.

Lemma cmp_lt_flip a b : In a items -> In b items -> cmp a b < 0 -> cmp b a > 0.
Proof.
  intros Ha Hb H.
  destruct (Z.lt_trichotomy (cmp b a) 0) as [L|[E|G]]; [| |lia].
  - pose proof (cmp_lt_trans a b a Ha Hb Ha H L).
    pose proof (cmp_refl a Ha); lia.
  - apply cmp_sym in E; auto; lia.
Qed.

Lemma cmp_le_trans a b c :
  In a items -> In b items -> In c items -> cmp a b <= 0 -> cmp b c <= 0 -> cmp a c <= 0.
Proof.
  intros Ha Hb Hc Hab Hbc.
  destruct (Z_le_gt_dec (cmp a c) 0) as [L|G]; [exact L|exfalso].
  pose proof (cmp_gt_flip a c Ha Hc G) as Hca.
  destruct (Z.eq_dec (cmp a b) 0) as [Eab|Nab];
    destruct (Z.eq_dec (cmp b c) 0) as [Ebc|Nbc].
  - pose proof (cmp_eq_trans a b c Ha Hb Hc Eab Ebc); lia.
  - pose proof (cmp_lt_trans b c a Hb Hc Ha ltac:(lia) Hca).
    pose proof (cmp_sym a b Ha Hb Eab); lia.
  - pose proof (cmp_lt_trans c a b Hc Ha Hb Hca ltac:(lia)).
    pose proof (cmp_sym b c Hb Hc Ebc); lia.
  - pose proof (cmp_lt_trans a b c Ha Hb Hc ltac:(lia) ltac:(lia)); lia.
Qed.

Lemma insertSorted_permutes x l :
  Permutation (x :: l) (insertSorted comparefn x l).
Proof.
  induction l as [|y l IH]; simpl; [reflexivity|].
  destruct (cmp x y <=? 0); [reflexivity|].
  rewrite perm_swap; constructor; exact IH.
Qed.

Lemma Array_sort_permutes l : Permutation l (Array_sort comparefn l).
Proof.
  induction l as [|x l IH]; simpl; [constructor|].
  rewrite <- insertSorted_permutes; constructor; exact IH.
Qed.

Lemma insertSorted_orders x l :
  In x items -> incl l items ->
  StronglySorted (fun a b => cmp a b <= 0) l ->
  StronglySorted (fun a b => cmp a b <= 0) (insertSorted comparefn x l).
Proof.
  intros Hx; induction l as [|y l IH]; intros Hl Hs; simpl.
  - repeat constructor.
  - assert (Hy : In y items) by (apply Hl; left; reflexivity).
    assert (Hl' : incl l items) by (intros z Hz; apply Hl; right; exact Hz).
    inversion Hs as [|? ? Hs' Hall]; subst.
    destruct (cmp x y <=? 0) eqn:E.
    + apply Z.leb_le in E.
      constructor; [exact Hs|].
      constructor; [exact E|].
      rewrite Forall_forall in *; intros z Hz.
      apply (cmp_le_trans x y z); auto.
    + apply Z.leb_gt in E.
      constructor; [apply IH; assumption|].
      rewrite Forall_forall in *; intros z Hz.
      apply (Permutation_in _ (Permutation_sym (insertSorted_permutes x l)))
        in Hz.
      destruct Hz as [<-|Hz]; [|auto].
      pose proof (cmp_gt_flip x y Hx Hy ltac:(lia)); lia.
Qed.

Lemma Array_sort_orders l :
  incl l items ->
  StronglySorted (fun a b => cmp a b <= 0) (Array_sort comparefn l).
Proof.
  induction l as [|x l IH]; intros Hl; simpl; [constructor|].
  apply insertSorted_orders.
  - apply Hl; left; reflexivity.
  - intros z Hz; apply Hl; right.
    apply (Permutation_in _ (Permutation_sym (Array_sort_permutes l))), Hz.
  - apply IH; intros z Hz; apply Hl; right; exact Hz.
Qed.

Lemma insertSorted_stable w x l :
  In w items -> In x items -> incl l items ->
  filter (fun y => cmp w y =? 0) (insertSorted comparefn x l)
  = filter (fun y => cmp w y =? 0) (x :: l).
Proof.
  intros Hw Hx; induction l as [|y l IH]; intros Hl; [reflexivity|].
  assert (Hy : In y items) by (apply Hl; left; reflexivity).
  assert (Hl' : incl l items) by (intros z Hz; apply Hl; right; exact Hz).
  cbn [insertSorted].
  destruct (cmp x y <=? 0) eqn:E; [reflexivity|].
  apply Z.leb_gt in E.
  cbn [filter] in *; rewrite (IH Hl').
  destruct (cmp w x =? 0) eqn:Ex; destruct (cmp w y =? 0) eqn:Ey;
    try reflexivity.
  apply Z.eqb_eq in Ex, Ey.
  pose proof (cmp_sym w x Hw Hx Ex) as Exw.
  pose proof (cmp_eq_trans x w y Hx Hw Hy Exw Ey); lia.
Qed.

Lemma Array_sort_stable w l :
  In w items -> incl l items ->
  filter (fun y => cmp w y =? 0) (Array_sort comparefn l)
  = filter (fun y => cmp w y =? 0) l.
Proof.
  intros Hw; induction l as [|x l IH]; intros Hl; [reflexivity|].
  cbn [Array_sort fold_right].
  change (fold_right (insertSorted comparefn) [] l)
    with (Array_sort comparefn l).
  rewrite insertSorted_stable.
  - cbn [filter]; rewrite IH; [reflexivity|].
    intros z Hz; apply Hl; right; exact Hz.
  - exact Hw.
  - apply Hl; left; reflexivity.
  - intros z Hz; apply Hl; right.
    apply (Permutation_in _ (Permutation_sym (Array_sort_permutes l))), Hz.
Qed.
End SortFacts.

(** The reference engine keeps the promise of the standard, whatever the
    comparator: sorting always has an outcome. *)
Lemma Array_sort_outcome {A : Type} (comparefn : A -> A -> option Z)
  (l : list A) :
  SortOutcome comparefn l (Array_sort comparefn l).
Proof.
  constructor.
  - apply Array_sort_permutes.
  - intros H; apply (Array_sort_orders comparefn l H); intros x Hx; exact Hx.
  - intros H x Hx; apply (Array_sort_stable comparefn l H);
      [exact Hx | intros z Hz; exact Hz].
Qed.

Section MergeFacts.
Context {A : Type}.
Variable comparefn : A -> A -> option Z.
Variable items : list A.
Hypothesis consistent : Consistent comparefn items.

Local Abbreviation cmp := (SortCompare comparefn).
Local Abbreviation le := (fun a b => cmp a b <= 0).

Lemma mergeRuns_nil_l l2 : mergeRuns comparefn [] l2 = l2.
Proof. destruct l2; reflexivity. Qed.

Lemma mergeRuns_nil_r l1 : mergeRuns comparefn l1 [] = l1.
Proof. destruct l1; reflexivity. Qed.

Lemma mergeRuns_cons x l1 y l2 :
  mergeRuns comparefn (x :: l1) (y :: l2)
  = if cmp x y <=? 0 then x :: mergeRuns comparefn l1 (y :: l2)
    else y :: mergeRuns comparefn (x :: l1) l2.
Proof. reflexivity. Qed.

Lemma mergeRuns_permutes l1 : forall l2,
  Permutation (l1 ++ l2) (mergeRuns comparefn l1 l2).
Proof.
  induction l1 as [|x l1 IH1]; intros l2;
    [rewrite mergeRuns_nil_l; reflexivity|].
  induction l2 as [|y l2 IH2];
    [rewrite mergeRuns_nil_r, app_nil_r; reflexivity|].
  rewrite mergeRuns_cons; destruct (cmp x y <=? 0).
  - cbn [app]; constructor; apply IH1.
  - rewrite <- IH2; symmetry; apply Permutation_middle.
Qed.

Lemma mergeRuns_In l1 l2 z :
  In z (mergeRuns comparefn l1 l2) -> In z l1 \/ In z l2.
Proof.
  intros H; apply in_app_or.
  apply (Permutation_in _ (Permutation_sym (mergeRuns_permutes l1 l2))), H.
Qed.

Lemma mergeRuns_orders l1 : forall l2,
  incl l1 items -> incl l2 items -> StronglySorted le l1 -> StronglySorted le l2 ->
  StronglySorted le (mergeRuns comparefn l1 l2).
Proof.
  induction l1 as [|x l1 IH1]; intros l2 I1 I2 S1 S2;
    [rewrite mergeRuns_nil_l; exact S2|].
  induction l2 as [|y l2 IH2]; [rewrite mergeRuns_nil_r; exact S1|].
  assert (Hx : In x items) by (apply I1; left; reflexivity).
  assert (Hy : In y items) by (apply I2; left; reflexivity).
  assert (I1' : incl l1 items) by (intros z Hz; apply I1; right; exact Hz).
  assert (I2' : incl l2 items) by (intros z Hz; apply I2; right; exact Hz).
  inversion S1 as [|? ? S1' F1]; inversion S2 as [|? ? S2' F2]; subst.
  rewrite Forall_forall in F1, F2.
  rewrite mergeRuns_cons; destruct (cmp x y <=? 0) eqn:E.
  - apply Z.leb_le in E; constructor; [apply IH1; assumption|].
    rewrite Forall_forall; intros z Hz.
    apply mergeRuns_In in Hz; destruct Hz as [Hz|[<-|Hz]]; auto.
    apply (cmp_le_trans comparefn items consistent x y z); auto.
  - apply Z.leb_gt in E; constructor; [apply IH2; assumption|].
    pose proof (cmp_gt_flip comparefn items consistent x y Hx Hy ltac:(lia)) as F.
    rewrite Forall_forall; intros z Hz.
    apply mergeRuns_In in Hz; destruct Hz as [[<-|Hz]|Hz]; auto; [lia|].
    apply (cmp_le_trans comparefn items consistent y x z); auto; lia.
Qed.

Lemma filter_none (p : A -> bool) (l : list A) :
  (forall z, In z l -> p z = false) -> filter p l = [].
Proof.
  induction l as [|z l IH]; intros H; [reflexivity|].
  cbn [filter]; rewrite (H z) by (left; reflexivity).
  apply IH; intros; apply H; right; assumption.
Qed.

Lemma filter_head (p : A -> bool) (y : A) (l : list A) :
  filter p (y :: l) = (if p y then [y] else []) ++ filter p l.
Proof. cbn [filter]; destruct (p y); reflexivity. Qed.

Lemma mergeRuns_stable w l1 : forall l2,
  In w items -> incl l1 items -> incl l2 items -> StronglySorted le l1 ->
  filter (fun y => cmp w y =? 0) (mergeRuns comparefn l1 l2)
  = filter (fun y => cmp w y =? 0) l1 ++ filter (fun y => cmp w y =? 0) l2.
Proof.
  intros l2 Hw; revert l2.
  induction l1 as [|x l1 IH1]; intros l2 I1 I2 S1;
    [rewrite mergeRuns_nil_l; reflexivity|].
  induction l2 as [|y l2 IH2];
    [rewrite mergeRuns_nil_r, app_nil_r; reflexivity|].
  assert (Hx : In x items) by (apply I1; left; reflexivity).
  assert (Hy : In y items) by (apply I2; left; reflexivity).
  assert (I1' : incl l1 items) by (intros z Hz; apply I1; right; exact Hz).
  assert (I2' : incl l2 items) by (intros z Hz; apply I2; right; exact Hz).
  inversion S1 as [|? ? S1' F1]; subst; rewrite Forall_forall in F1.
  rewrite mergeRuns_cons; destruct (cmp x y <=? 0) eqn:E.
  - cbn [filter]; rewrite IH1 by assumption.
    destruct (cmp w x =? 0); reflexivity.
  - apply Z.leb_gt in E.
    rewrite (filter_head _ y (mergeRuns comparefn (x :: l1) l2)),
            (filter_head _ y l2), IH2 by assumption.
    destruct (cmp w y =? 0) eqn:Ey; [|reflexivity].
    apply Z.eqb_eq in Ey.
    assert (N : filter (fun y0 => cmp w y0 =? 0) (x :: l1) = []).
    { apply filter_none; intros z Hz; apply Z.eqb_neq; intros Ez.
      assert (Hz' : In z items) by (apply I1; exact Hz).
      assert (Lxz : cmp x z <= 0).
      { destruct Hz as [<-|Hz]; [|apply F1; exact Hz].
        rewrite (cmp_refl comparefn items consistent x Hx); lia. }
      pose proof (cmp_sym comparefn items consistent w z Hw Hz' Ez) as Ezw.
      pose proof (cmp_eq_trans comparefn items consistent z w y Hz' Hw Hy Ezw Ey)
        as Ezy.
      pose proof (cmp_le_trans comparefn items consistent x z y Hx Hz' Hy Lxz
                    ltac:(lia)).
      lia. }
    rewrite N; reflexivity.
Qed.

Lemma mergeSortFrom_permutes fuel : forall l,
  Permutation l (mergeSortFrom comparefn fuel l).
Proof.
  induction fuel as [|f IH]; intros l; [reflexivity|].
  destruct l as [|x [|y l]]; try reflexivity.
  cbn [mergeSortFrom].
  rewrite <- mergeRuns_permutes, <- !IH, firstn_skipn; reflexivity.
Qed.

Lemma mergeSortFrom_conforms fuel : forall l,
  (List.length l <= fuel)%nat -> incl l items ->
  StronglySorted le (mergeSortFrom comparefn fuel l)
  /\ forall w, In w items ->
       filter (fun y => cmp w y =? 0) (mergeSortFrom comparefn fuel l)
       = filter (fun y => cmp w y =? 0) l.
Proof.
  induction fuel as [|f IH]; intros l L I.
  - destruct l; [|simpl in L; lia]; split; [constructor | reflexivity].
  - destruct l as [|x [|y l]];
      [split; [constructor | reflexivity]
      |split; [repeat constructor | reflexivity]|].
    cbn [mergeSortFrom].
    set (half := Nat.div2 (List.length (x :: y :: l))).
    assert (H1 : (1 <= half)%nat)
      by (subst half; simpl; apply le_n_S, Nat.le_0_l).
    assert (H2 : (half < List.length (x :: y :: l))%nat)
      by (apply Nat.lt_div2; simpl; lia).
    assert (I1 : incl (firstn half (x :: y :: l)) items).
    { intros z Hz; apply I.
      rewrite <- (firstn_skipn half (x :: y :: l)); apply in_or_app; auto. }
    assert (I2 : incl (skipn half (x :: y :: l)) items).
    { intros z Hz; apply I.
      rewrite <- (firstn_skipn half (x :: y :: l)); apply in_or_app; auto. }
    destruct (IH (firstn half (x :: y :: l))) as [S1 T1];
      [rewrite length_firstn; lia | exact I1|].
    destruct (IH (skipn half (x :: y :: l))) as [S2 T2];
      [rewrite length_skipn; lia | exact I2|].
    assert (J1 : incl (mergeSortFrom comparefn f (firstn half (x :: y :: l))) items).
    { intros z Hz; apply I1.
      apply (Permutation_in _
               (Permutation_sym (mergeSortFrom_permutes f _))), Hz. }
    assert (J2 : incl (mergeSortFrom comparefn f (skipn half (x :: y :: l))) items).
    { intros z Hz; apply I2.
      apply (Permutation_in _
               (Permutation_sym (mergeSortFrom_permutes f _))), Hz. }
    split; [apply mergeRuns_orders; assumption|].
    intros w Hw.
    rewrite mergeRuns_stable, T1, T2, <- filter_app, firstn_skipn by assumption.
    reflexivity.
Qed.
End MergeFacts.

(** The merge sort keeps the promise of the standard as well. *)
Lemma mergeSort_outcome {A : Type} (comparefn : A -> A -> option Z)
  (l : list A) :
  SortOutcome comparefn l (mergeSort comparefn l).
Proof.
  unfold mergeSort; constructor.
  - apply mergeSortFrom_permutes.
  - intros H.
    apply (mergeSortFrom_conforms comparefn l H);
      [lia | intros x Hx; exact Hx].
  - intros H x Hx.
    apply (mergeSortFrom_conforms comparefn l H);
      [lia | intros z Hz; exact Hz | exact Hx].
Qed.

(** A list sorted strictly by a key is the only sorted arrangement of its
    elements. *)
Lemma sorted_arrangement_unique {A : Type} (key : A -> Z) (l1 l2 : list A) :
  Permutation l1 l2 ->
  StronglySorted (fun a b => key b < key a) l1 ->
  StronglySorted (fun a b => key b <= key a) l2 ->
  l1 = l2.
Proof.
  revert l2; induction l1 as [|x l1 IH]; intros l2 P S1 S2.
  - apply Permutation_nil in P; congruence.
  - destruct l2 as [|y l2];
      [apply Permutation_sym, Permutation_nil in P; discriminate|].
    inversion S1 as [|? ? S1' F1]; inversion S2 as [|? ? S2' F2]; subst.
    rewrite Forall_forall in F1, F2.
    assert (E : y = x).
    { assert (Hy : In y (x :: l1))
        by (apply (Permutation_in _ (Permutation_sym P)); left; reflexivity).
      assert (Hx : In x (y :: l2))
        by (apply (Permutation_in _ P); left; reflexivity).
      destruct Hy as [Hy|Hy]; [congruence|].
      destruct Hx as [Hx|Hx]; [congruence|].
      specialize (F1 y Hy); specialize (F2 x Hx); lia. }
    subst y; f_equal.
    apply IH; [eapply Permutation_cons_inv; exact P | assumption..].
Qed.

Lemma StronglySorted_weaken {A : Type} (R R' : A -> A -> Prop) (l : list A) :
  (forall x y, In x l -> In y l -> R x y -> R' x y) ->
  StronglySorted R l -> StronglySorted R' l.
Proof.
  induction l as [|x l IH]; intros H S; [constructor|].
  inversion S as [|? ? S' F]; subst.
  constructor.
  - apply IH; [|exact S'].
    intros a b Ha Hb; apply H; right; assumption.
  - rewrite Forall_forall in *; intros y Hy.
    apply H; [left; reflexivity | right; exact Hy | auto].
Qed.

Lemma filter_narrow {A : Type} (p q : A -> bool) (l : list A) :
  (forall x, In x l -> q x = true -> p x = true) ->
  filter q (filter p l) = filter q l.
Proof.
  induction l as [|x l IH]; intros H; simpl; [reflexivity|].
  assert (IH' : filter q (filter p l) = filter q l)
    by (apply IH; intros y Hy; apply H; right; exact Hy).
  destruct (p x) eqn:Ep; simpl; rewrite IH'; [reflexivity|].
  destruct (q x) eqn:Eq; [|reflexivity].
  rewrite (H x) in Ep by (auto; left; reflexivity); discriminate.
Qed.

Section TimFacts.
Context {A : Type}.
Variable comparefn : A -> A -> option Z.

Local Abbreviation cmp := (SortCompare comparefn).
Local Abbreviation le := (fun a b => cmp a b <= 0).

Lemma takeRun_splits d : forall l previous run rest,
  takeRun comparefn d previous l = (run, rest) -> l = run ++ rest.
Proof.
  induction l as [|current l IH]; intros previous run rest E; cbn [takeRun] in E.
  - inversion E; reflexivity.
  - destruct (Bool.eqb (cmp current previous <? 0) d).
    + destruct (takeRun comparefn d current l) as [run' rest'] eqn:E'.
      inversion E; subst; cbn [app]; f_equal; eapply IH; exact E'.
    + inversion E; reflexivity.
Qed.

Lemma countAndMakeRun_permutes l run rest :
  countAndMakeRun comparefn l = (run, rest) -> Permutation l (run ++ rest).
Proof.
  destruct l as [|x [|y l]]; cbn [countAndMakeRun]; intros E;
    try (inversion E; subst; rewrite app_nil_r; reflexivity).
  destruct (takeRun comparefn (cmp y x <? 0) y l) as [run' rest'] eqn:E'.
  apply takeRun_splits in E'; inversion E; subst.
  apply (Permutation_app_tail rest
           (l := x :: y :: run')
           (l' := if cmp y x <? 0 then rev (x :: y :: run')
                  else x :: y :: run')).
  destruct (cmp y x <? 0); [apply Permutation_rev | reflexivity].
Qed.

Lemma binaryInsertionSort_permutes rest : forall sorted,
  Permutation (sorted ++ rest) (binaryInsertionSort comparefn sorted rest).
Proof.
  induction rest as [|pivot rest IH]; intros sorted; cbn [binaryInsertionSort].
  - rewrite app_nil_r; reflexivity.
  - eapply perm_trans; [|apply IH].
    change (sorted ++ pivot :: rest) with (sorted ++ [pivot] ++ rest).
    rewrite app_assoc; apply Permutation_app_tail.
    eapply perm_trans; [apply Permutation_sym, Permutation_cons_append|].
    eapply perm_trans; [|apply Permutation_middle].
    rewrite firstn_skipn; reflexivity.
Qed.

Lemma timSort_permutes l : Permutation l (timSort comparefn l).
Proof.
  unfold timSort.
  destruct (countAndMakeRun comparefn l) as [run rest] eqn:E.
  eapply perm_trans; [apply countAndMakeRun_permutes, E|].
  apply binaryInsertionSort_permutes.
Qed.

(** The loop ends within [right - left] turns, whatever the comparator:
    a larger bound changes nothing. *)
Lemma insertionPoint_steps pivot work : forall steps steps' left right,
  (right - left <= steps)%nat -> (right - left <= steps')%nat ->
  insertionPoint comparefn steps pivot work left right
  = insertionPoint comparefn steps' pivot work left right.
Proof.
  induction steps as [|steps IH]; intros [|steps'] left right H H';
    cbn [insertionPoint]; try reflexivity;
    destruct (Nat.ltb_spec left right) as [Lt|Ge];
    try reflexivity; try lia.
  pose proof (Nat.div2_div (right - left)) as D.
  assert (M : (left <= left + Nat.div2 (right - left) < right)%nat).
  { rewrite D; split; [lia|].
    assert ((right - left) / 2 < right - left)%nat
      by (apply Nat.div_lt; lia).
    lia. }
  destruct (nth_error work (left + Nat.div2 (right - left))) as [element|];
    [|reflexivity].
  destruct (cmp pivot element <? 0); apply IH; lia.
Qed.

(** The loop stops at the end of the elements that [pivot] does not compare
    less than, when these come first. *)
Lemma insertionPoint_finds pivot l1 l2 :
  Forall (fun y => cmp pivot y >= 0) l1 ->
  Forall (fun y => cmp pivot y < 0) l2 ->
  forall steps left right,
  (right - left <= steps)%nat ->
  (left <= List.length l1)%nat -> (List.length l1 <= right)%nat ->
  (right <= List.length (l1 ++ l2))%nat ->
  insertionPoint comparefn steps pivot (l1 ++ l2) left right = List.length l1.
Proof.
  intros F1 F2; rewrite Forall_forall in F1, F2.
  induction steps as [|steps IH]; intros left right Hs Hl Hr Hb;
    cbn [insertionPoint]; [lia|].
  destruct (Nat.ltb_spec left right) as [Lt|Ge]; [|lia].
  pose proof (Nat.div2_div (right - left)) as D.
  assert (M : (left <= left + Nat.div2 (right - left) < right)%nat).
  { rewrite D; split; [lia|].
    assert ((right - left) / 2 < right - left)%nat
      by (apply Nat.div_lt; lia).
    lia. }
  set (mid := (left + Nat.div2 (right - left))%nat) in *.
  destruct (nth_error (l1 ++ l2) mid) as [element|] eqn:N.
  - destruct (Nat.lt_ge_cases mid (List.length l1)) as [In1|In2].
    + rewrite nth_error_app1 in N by exact In1.
      apply nth_error_In, F1 in N.
      destruct (Z.ltb_spec (cmp pivot element) 0) as [C|C]; [lia|].
      apply IH; lia.
    + rewrite nth_error_app2 in N by exact In2.
      apply nth_error_In, F2 in N.
      destruct (Z.ltb_spec (cmp pivot element) 0) as [C|C]; [|lia].
      apply IH; lia.
  - apply nth_error_None in N; lia.
Qed.

Lemma StronglySorted_middle (R : A -> A -> Prop) (x : A) (l1 l2 : list A) :
  StronglySorted R (l1 ++ l2) ->
  Forall (fun y => R y x) l1 -> Forall (R x) l2 ->
  StronglySorted R (l1 ++ x :: l2).
Proof.
  induction l1 as [|y l1 IH]; cbn [app]; intros S F1 F2.
  - constructor; assumption.
  - inversion S as [|? ? S' F]; subst.
    inversion F1 as [|? ? Ryx F1']; subst.
    constructor; [apply IH; assumption|].
    rewrite Forall_forall in *; intros z Hz.
    apply in_app_or in Hz; destruct Hz as [Hz|[<-|Hz]].
    + apply F, in_or_app; left; exact Hz.
    + exact Ryx.
    + apply F, in_or_app; right; exact Hz.
Qed.

Lemma StronglySorted_rev (R : A -> A -> Prop) (l : list A) :
  StronglySorted R l -> StronglySorted (fun a b => R b a) (rev l).
Proof.
  induction 1 as [|x l S IH F]; cbn [rev]; [constructor|].
  rewrite <- (app_nil_r (rev l ++ [x])), <- app_assoc; cbn [app].
  apply StronglySorted_middle.
  - rewrite app_nil_r; exact IH.
  - rewrite Forall_forall in *; intros y Hy; apply F, in_rev, Hy.
  - constructor.
Qed.

Variable items : list A.
Hypothesis consistent : Consistent comparefn items.

Lemma cmp_ge_flip a b : In a items -> In b items -> cmp a b >= 0 -> cmp b a <= 0.
Proof.
  intros Ha Hb H.
  destruct (Z.eq_dec (cmp a b) 0) as [E|N].
  - rewrite (cmp_sym comparefn items consistent a b Ha Hb E); lia.
  - pose proof (cmp_gt_flip comparefn items consistent a b Ha Hb ltac:(lia)).
    lia.
Qed.

Lemma cmp_lt_le_trans a b c :
  In a items -> In b items -> In c items ->
  cmp a b < 0 -> cmp b c <= 0 -> cmp a c < 0.
Proof.
  intros Ha Hb Hc Hab Hbc.
  destruct (Z.eq_dec (cmp b c) 0) as [E|N].
  - destruct (Z.lt_trichotomy (cmp a c) 0) as [L|[E'|G]]; [exact L| |].
    + pose proof (cmp_sym comparefn items consistent b c Hb Hc E) as Ecb.
      pose proof (cmp_eq_trans comparefn items consistent a c b
                    Ha Hc Hb E' Ecb).
      lia.
    + pose proof (cmp_gt_flip comparefn items consistent a c Ha Hc
                    ltac:(lia)) as Lca.
      pose proof (cmp_lt_trans comparefn items consistent c a b
                    Hc Ha Hb Lca Hab) as Lcb.
      pose proof (cmp_sym comparefn items consistent b c Hb Hc E).
      lia.
  - apply (cmp_lt_trans comparefn items consistent a b c); auto; lia.
Qed.

(** A run is in order: as it stands when it ascends, end to end when it
    descends; and a descending run holds no two elements that compare
    equal. *)
Lemma takeRun_ascends : forall l previous run rest,
  incl (previous :: l) items ->
  takeRun comparefn false previous l = (run, rest) ->
  StronglySorted le (previous :: run).
Proof.
  induction l as [|current l IH]; intros previous run rest Hl E;
    cbn [takeRun] in E.
  - inversion E; subst; repeat constructor.
  - assert (Hp : In previous items) by (apply Hl; left; reflexivity).
    assert (Hc : In current items) by (apply Hl; right; left; reflexivity).
    assert (Hl' : incl (current :: l) items)
      by (intros z Hz; apply Hl; right; exact Hz).
    destruct (Z.ltb_spec (cmp current previous) 0) as [C|C]; cbn [Bool.eqb] in E.
    + inversion E; subst; repeat constructor.
    + destruct (takeRun comparefn false current l) as [run' rest'] eqn:E'.
      inversion E; subst; clear E.
      pose proof (IH _ _ _ Hl' E') as S.
      pose proof (cmp_ge_flip current previous Hc Hp ltac:(lia)) as Lpc.
      constructor; [exact S|].
      inversion S as [|? ? _ F]; subst.
      constructor; [exact Lpc|].
      rewrite Forall_forall in *; intros z Hz.
      apply (cmp_le_trans comparefn items consistent previous current z);
        auto.
      apply Hl'; right.
      apply takeRun_splits in E'; rewrite E'; apply in_or_app; left; exact Hz.
Qed.

Lemma takeRun_descends : forall l previous run rest,
  incl (previous :: l) items ->
  takeRun comparefn true previous l = (run, rest) ->
  StronglySorted (fun a b => cmp b a < 0) (previous :: run).
Proof.
  induction l as [|current l IH]; intros previous run rest Hl E;
    cbn [takeRun] in E.
  - inversion E; subst; repeat constructor.
  - assert (Hp : In previous items) by (apply Hl; left; reflexivity).
    assert (Hc : In current items) by (apply Hl; right; left; reflexivity).
    assert (Hl' : incl (current :: l) items)
      by (intros z Hz; apply Hl; right; exact Hz).
    destruct (Z.ltb_spec (cmp current previous) 0) as [C|C]; cbn [Bool.eqb] in E.
    + destruct (takeRun comparefn true current l) as [run' rest'] eqn:E'.
      inversion E; subst; clear E.
      pose proof (IH _ _ _ Hl' E') as S.
      constructor; [exact S|].
      inversion S as [|? ? _ F]; subst.
      constructor; [exact C|].
      rewrite Forall_forall in *; intros z Hz.
      apply (cmp_lt_trans comparefn items consistent z current previous);
        auto.
      apply Hl'; right.
      apply takeRun_splits in E'; rewrite E'; apply in_or_app; left; exact Hz.
    + inversion E; subst; repeat constructor.
Qed.

Lemma descending_no_ties w (l : list A) :
  In w items -> incl l items ->
  StronglySorted (fun a b => cmp b a < 0) l ->
  rev (filter (fun y => cmp w y =? 0) l) = filter (fun y => cmp w y =? 0) l.
Proof.
  intros Hw Hl S.
  assert (H : (List.length (filter (fun y => (cmp w y =? 0)%Z) l) <= 1)%nat).
  { induction S as [|x l S IH F]; cbn [filter]; [simpl; lia|].
    assert (Hx : In x items) by (apply Hl; left; reflexivity).
    assert (Hl' : incl l items) by (intros z Hz; apply Hl; right; exact Hz).
    destruct (Z.eqb_spec (cmp w x) 0) as [E|N]; [|apply IH, Hl'].
    rewrite filter_none; [simpl; lia|].
    intros z Hz; apply Z.eqb_neq; intros Ez.
    rewrite Forall_forall in F; specialize (F z Hz); cbn beta in F.
    pose proof (cmp_sym comparefn items consistent w z Hw (Hl' z Hz) Ez)
      as Ezw.
    pose proof (cmp_eq_trans comparefn items consistent z w x
                  (Hl' z Hz) Hw Hx Ezw E).
    lia. }
  destruct (filter (fun y => cmp w y =? 0) l) as [|y [|z f]];
    [reflexivity | reflexivity | simpl in H; lia].
Qed.

Lemma countAndMakeRun_conforms l run rest :
  incl l items ->
  countAndMakeRun comparefn l = (run, rest) ->
  StronglySorted le run
  /\ exists prefix,
       l = prefix ++ rest /\ Permutation prefix run
       /\ forall w, In w items ->
            filter (fun y => cmp w y =? 0) run
            = filter (fun y => cmp w y =? 0) prefix.
Proof.
  intros Hl E.
  destruct l as [|x [|y l]]; cbn [countAndMakeRun] in E;
    try (inversion E; subst; split; [repeat constructor|];
         eexists; rewrite app_nil_r; repeat split; reflexivity).
  assert (Hx : In x items) by (apply Hl; left; reflexivity).
  assert (Hy : In y items) by (apply Hl; right; left; reflexivity).
  assert (Hl' : incl (y :: l) items)
    by (intros z Hz; apply Hl; right; exact Hz).
  destruct (takeRun comparefn (cmp y x <? 0) y l) as [run' rest'] eqn:E'.
  pose proof (takeRun_splits _ _ _ _ _ E') as Sp.
  assert (Hr : incl (x :: y :: run') items).
  { intros z Hz; apply Hl; rewrite Sp.
    destruct Hz as [<-|[<-|Hz]];
      [left; reflexivity | right; left; reflexivity|].
    right; right; apply in_or_app; left; exact Hz. }
  destruct (Z.ltb_spec (cmp y x) 0) as [C|C]; inversion E; subst; clear E.
  - pose proof (takeRun_descends _ _ _ _ Hl' E') as S.
    assert (S' : StronglySorted (fun a b => cmp b a < 0) (x :: y :: run')).
    { constructor; [exact S|].
      inversion S as [|? ? _ F]; subst.
      constructor; [exact C|].
      rewrite Forall_forall in *; intros z Hz.
      apply (cmp_lt_trans comparefn items consistent z y x); auto.
      apply Hr; right; right; exact Hz. }
    split.
    + apply StronglySorted_rev in S'.
      eapply StronglySorted_weaken; [|exact S'].
      cbn beta; intros; lia.
    + exists (x :: y :: run'); split; [reflexivity|].
      split; [apply Permutation_rev|].
      intros w Hw.
      change ((rev run' ++ [y]) ++ [x]) with (rev (x :: y :: run')).
      rewrite filter_rev.
      apply descending_no_ties; assumption.
  - pose proof (takeRun_ascends _ _ _ _ Hl' E') as S.
    split.
    + constructor; [exact S|].
      pose proof (cmp_ge_flip y x Hy Hx ltac:(lia)) as Lxy.
      inversion S as [|? ? _ F]; subst.
      constructor; [exact Lxy|].
      rewrite Forall_forall in *; intros z Hz.
      apply (cmp_le_trans comparefn items consistent x y z); auto.
      apply Hr; right; right; exact Hz.
    + exists (x :: y :: run'); repeat split; reflexivity.
Qed.

(** Elements in order fall into those [pivot] does not compare less than,
    and after them those it does. *)
Lemma sorted_splits pivot (work : list A) :
  In pivot items -> incl work items -> StronglySorted le work ->
  exists l1 l2,
    work = l1 ++ l2
    /\ Forall (fun y => cmp pivot y >= 0) l1
    /\ Forall (fun y => cmp pivot y < 0) l2.
Proof.
  intros Hp Hw S; induction S as [|x l S IH F].
  - exists [], []; repeat split; constructor.
  - assert (Hx : In x items) by (apply Hw; left; reflexivity).
    assert (Hl : incl l items) by (intros z Hz; apply Hw; right; exact Hz).
    destruct (Z_lt_ge_dec (cmp pivot x) 0) as [C|C].
    + exists [], (x :: l); repeat split; [constructor|].
      constructor; [exact C|].
      rewrite Forall_forall in *; intros z Hz.
      apply (cmp_lt_le_trans pivot x z); auto.
    + destruct (IH Hl) as (l1 & l2 & -> & F1 & F2).
      exists (x :: l1), l2; repeat split; [|exact F2].
      constructor; assumption.
Qed.

Lemma binaryInsertionSort_conforms rest : forall sorted prefix,
  incl (prefix ++ rest) items ->
  Permutation prefix sorted ->
  StronglySorted le sorted ->
  (forall w, In w items ->
     filter (fun y => cmp w y =? 0) sorted
     = filter (fun y => cmp w y =? 0) prefix) ->
  StronglySorted le (binaryInsertionSort comparefn sorted rest)
  /\ forall w, In w items ->
       filter (fun y => cmp w y =? 0)
         (binaryInsertionSort comparefn sorted rest)
       = filter (fun y => cmp w y =? 0) (prefix ++ rest).
Proof.
  induction rest as [|pivot rest IH]; intros sorted prefix Hi P S St;
    cbn [binaryInsertionSort].
  - rewrite app_nil_r; split; assumption.
  - assert (Hp : In pivot items)
      by (apply Hi, in_or_app; right; left; reflexivity).
    assert (Hs : incl sorted items).
    { intros z Hz; apply Hi, in_or_app; left.
      apply (Permutation_in _ (Permutation_sym P)), Hz. }
    destruct (sorted_splits pivot sorted Hp Hs S) as (l1 & l2 & -> & F1 & F2).
    rewrite (insertionPoint_finds pivot l1 l2 F1 F2)
      by (rewrite ?length_app; lia).
    rewrite firstn_app, Nat.sub_diag, firstn_all, firstn_O, app_nil_r.
    rewrite skipn_app, Nat.sub_diag, skipn_all, skipn_O; cbn [app].
    replace (prefix ++ pivot :: rest) with ((prefix ++ [pivot]) ++ rest)
      by (rewrite <- app_assoc; reflexivity).
    apply IH.
    + rewrite <- app_assoc; exact Hi.
    + eapply perm_trans; [|apply Permutation_middle].
      eapply perm_trans; [apply Permutation_sym, Permutation_cons_append|].
      constructor; exact P.
    + apply StronglySorted_middle; [exact S| |].
      * rewrite Forall_forall in *; intros y Hy.
        apply cmp_ge_flip; auto.
        apply Hs, in_or_app; left; exact Hy.
      * rewrite Forall_forall in *; intros y Hy.
        specialize (F2 y Hy); cbn beta in F2; lia.
    + intros w Hw.
      rewrite !filter_app, <- (St w Hw), !filter_app; cbn [filter].
      destruct (Z.eqb_spec (cmp w pivot) 0) as [E|N];
        [|rewrite app_nil_r; reflexivity].
      rewrite (filter_none _ l2); [rewrite app_nil_r; reflexivity|].
      intros z Hz; apply Z.eqb_neq; intros Ez.
      rewrite Forall_forall in F2; specialize (F2 z Hz); cbn beta in F2.
      pose proof (cmp_sym comparefn items consistent w pivot Hw Hp E) as E'.
      assert (Hzi : In z items) by (apply Hs, in_or_app; right; exact Hz).
      pose proof (cmp_eq_trans comparefn items consistent pivot w z
                    Hp Hw Hzi E' Ez).
      lia.
Qed.
End TimFacts.

(** TimSort on a short array keeps the promise of the standard too. *)
Lemma timSort_outcome {A : Type} (comparefn : A -> A -> option Z)
  (l : list A) :
  SortOutcome comparefn l (timSort comparefn l).
Proof.
  assert (H : Consistent comparefn l ->
              StronglySorted (fun x y => SortCompare comparefn x y <= 0)
                (timSort comparefn l)
              /\ forall w, In w l ->
                   filter (fun y => SortCompare comparefn w y =? 0)
                     (timSort comparefn l)
                   = filter (fun y => SortCompare comparefn w y =? 0) l).
  { intros C; unfold timSort.
    destruct (countAndMakeRun comparefn l) as [run rest] eqn:E.
    destruct (countAndMakeRun_conforms comparefn l C l run rest
                (fun z Hz => Hz) E)
      as (S & prefix & El & P & St).
    assert (Hi : incl (prefix ++ rest) l)
      by (rewrite <- El; intros z Hz; exact Hz).
    pose proof (binaryInsertionSort_conforms comparefn l C rest run prefix
                  Hi P S St) as R.
    rewrite <- El in R; exact R. }
  constructor.
  - apply timSort_permutes.
  - intros C; apply H, C.
  - intros C; apply H, C.
Qed.

(** ** The list shown *)

Section Shown.
Variable legacy : jsstring -> option Z.

Local Abbreviation cmp := (SortCompare (byDateDescending legacy)).

Local Abbreviation instant := (instant legacy).

Lemma cmp_valid x y :
  Date_parse legacy (date x) <> None ->
  Date_parse legacy (date y) <> None ->
  cmp x y = instant y - instant x.
Proof.
  unfold SortCompare, byDateDescending, instant.
  destruct (Date_parse legacy (date x)), (Date_parse legacy (date y));
    congruence.
Qed.

Lemma datesValid_Consistent ts :
  datesValid legacy ts -> Consistent (byDateDescending legacy) ts.
Proof.
  intros V; unfold Consistent; repeat split; intros;
    repeat match goal with
    | H : In ?a ts |- _ => apply V in H
    end;
    repeat match goal with
    | H : cmp _ _ = _ |- _ => rewrite cmp_valid in H by assumption
    | H : cmp _ _ < _ |- _ => rewrite cmp_valid in H by assumption
    | H : cmp _ _ > _ |- _ => rewrite cmp_valid in H by assumption
    end;
    rewrite cmp_valid by assumption; lia.
Qed.

Lemma Listed_datesValid ts rows :
  datesValid legacy ts -> Listed legacy ts rows -> datesValid legacy rows.
Proof.
  intros V [P _ _] t Ht.
  apply V, (Permutation_in _ (Permutation_sym P)), Ht.
Qed.

Lemma Listed_by_instant ts rows :
  datesValid legacy ts -> Listed legacy ts rows ->
  StronglySorted (fun x y => instant y <= instant x) rows.
Proof.
  intros V L.
  pose proof (Listed_datesValid ts rows V L) as V'.
  destruct L as [_ O _].
  apply (StronglySorted_weaken (fun x y => cmp x y <= 0));
    [|apply O, datesValid_Consistent, V].
  intros x y Hx Hy H.
  rewrite cmp_valid in H by (apply V'; assumption); lia.
Qed.

Lemma Listed_notEarlier ts rows :
  datesValid legacy ts -> Listed legacy ts rows ->
  StronglySorted (notEarlier legacy) rows.
Proof.
  intros V L.
  apply (StronglySorted_weaken (fun x y => instant y <= instant x));
    [|apply (Listed_by_instant ts); assumption].
  unfold instant, notEarlier; intros x y _ _ H tx ty Ex Ey.
  rewrite Ex, Ey in H; exact H.
Qed.

Lemma Listed_sameDay ts rows x :
  datesValid legacy ts -> Listed legacy ts rows -> In x ts ->
  filter (sameDay legacy x) rows = filter (sameDay legacy x) ts.
Proof.
  intros V L Hx.
  pose proof (Listed_datesValid ts rows V L) as V'.
  destruct L as [_ _ St].
  assert (E : forall l, datesValid legacy l ->
            filter (sameDay legacy x) l = filter (fun y => cmp x y =? 0) l).
  { intros l Vl; apply filter_ext_in; intros y Hy.
    rewrite cmp_valid by (auto; apply Vl; exact Hy).
    unfold sameDay, instant.
    pose proof (V x Hx); pose proof (Vl y Hy).
    destruct (Date_parse legacy (date x)), (Date_parse legacy (date y));
      try congruence.
    destruct (z =? z0) eqn:E1; destruct (z0 - z =? 0) eqn:E2; try reflexivity;
      rewrite ?Z.eqb_eq, ?Z.eqb_neq in *; lia. }
  rewrite (E rows V'), (E ts V).
  apply St; [apply datesValid_Consistent, V | exact Hx].
Qed.

Lemma sameDate_sameDay x y : sameDate x y = true -> sameDay legacy x y = true.
Proof.
  unfold sameDate, sameDay; intros H; apply streq_true_iff in H; rewrite H.
  destruct (Date_parse legacy (date y)); [apply Z.eqb_refl | reflexivity].
Qed.

Lemma Listed_sameDate ts rows x :
  datesValid legacy ts -> Listed legacy ts rows -> In x ts ->
  filter (sameDate x) rows = filter (sameDate x) ts.
Proof.
  intros V L Hx.
  rewrite <- (filter_narrow (sameDay legacy x) (sameDate x) rows),
          <- (filter_narrow (sameDay legacy x) (sameDate x) ts);
    try (intros; apply sameDate_sameDay; assumption).
  rewrite (Listed_sameDay ts rows x V L Hx); reflexivity.
Qed.

Lemma Listed_three r1 r2 r3 rows :
  date r1 = js "2024-01-01" -> date r2 = js "2024-03-01" ->
  date r3 = js "2024-02-01" ->
  Listed legacy [r1; r2; r3] rows -> rows = [r2; r3; r1].
Proof.
  intros E1 E2 E3 L.
  assert (I1 : instant r1 = 1704067200000)
    by (unfold instant; rewrite E1; reflexivity).
  assert (I2 : instant r2 = 1709251200000)
    by (unfold instant; rewrite E2; reflexivity).
  assert (I3 : instant r3 = 1706745600000)
    by (unfold instant; rewrite E3; reflexivity).
  assert (V : datesValid legacy [r1; r2; r3]).
  { intros t [<-|[<-|[<-|[]]]]; rewrite ?E1, ?E2, ?E3; discriminate. }
  pose proof (Listed_by_instant _ _ V L) as Srt.
  destruct L as [P _ _].
  symmetry; apply (sorted_arrangement_unique instant); [| |exact Srt].
  - rewrite <- P.
    apply Permutation_sym, (Permutation_cons_app [r2; r3] []); reflexivity.
  - repeat constructor; lia.
Qed.
End Shown.

(** C6, as stated, fails: a record whose date the engine cannot read
    compares equal to every other, and the list comes out with January
    before March.  The order shown is the one the reference engine
    produces, and it is an outcome the standard allows. *)
Lemma listed_not_descending :
  sortedTransactions strictEngine
    [record 1 "10" "a" "" "2024-01-01" "income";
     record 2 "20" "b" "" "unknown" "income";
     record 3 "30" "c" "" "2024-03-01" "income"]
  = [record 1 "10" "a" "" "2024-01-01" "income";
     record 2 "20" "b" "" "unknown" "income";
     record 3 "30" "c" "" "2024-03-01" "income"]
  /\ Listed strictEngine
       [record 1 "10" "a" "" "2024-01-01" "income";
        record 2 "20" "b" "" "unknown" "income";
        record 3 "30" "c" "" "2024-03-01" "income"]
       [record 1 "10" "a" "" "2024-01-01" "income";
        record 2 "20" "b" "" "unknown" "income";
        record 3 "30" "c" "" "2024-03-01" "income"]
  /\ ~ StronglySorted (notEarlier strictEngine)
       [record 1 "10" "a" "" "2024-01-01" "income";
        record 2 "20" "b" "" "unknown" "income";
        record 3 "30" "c" "" "2024-03-01" "income"].
Proof.
  assert (E : sortedTransactions strictEngine
                [record 1 "10" "a" "" "2024-01-01" "income";
                 record 2 "20" "b" "" "unknown" "income";
                 record 3 "30" "c" "" "2024-03-01" "income"]
              = [record 1 "10" "a" "" "2024-01-01" "income";
                 record 2 "20" "b" "" "unknown" "income";
                 record 3 "30" "c" "" "2024-03-01" "income"])
    by (vm_compute; reflexivity).
  split; [exact E|]; split.
  - rewrite <- E at 2; apply Array_sort_outcome.
  - intros S; inversion S as [|? ? _ F]; subst.
    inversion F as [|? ? _ F']; subst.
    inversion F' as [|? ? H _]; subst.
    specialize (H 1704067200000 1709251200000 eq_refl eq_refl); lia.
Qed.

(** C6, amended.  For every collection whose records all have a date the
    engine can read, the list shown holds the records of the collection
    ordered by date, latest first; in particular three records dated
    2024-01-01, 2024-03-01 and 2024-02-01, added in that order, are shown
    in the order 2024-03-01, 2024-02-01, 2024-01-01. *)
Theorem listed_descending_by_date (legacy : jsstring -> option Z) :
  (forall ts rows,
     datesValid legacy ts -> Listed legacy ts rows ->
     Permutation ts rows /\ StronglySorted (notEarlier legacy) rows)
  /\ (forall r1 r2 r3 rows,
        date r1 = js "2024-01-01" -> date r2 = js "2024-03-01" ->
        date r3 = js "2024-02-01" ->
        Listed legacy [r1; r2; r3] rows -> rows = [r2; r3; r1]).
Proof.
  split.
  - intros ts rows V L; split; [apply L|].
    apply (Listed_notEarlier legacy ts); assumption.
  - apply Listed_three.
Qed.

Lemma listed_descending_by_date_witness :
  Listed strictEngine
    [record 1 "10" "a" "" "2024-01-01" "income";
     record 2 "20" "b" "" "2024-03-01" "expense";
     record 3 "30" "c" "" "2024-02-01" "income"]
    (sortedTransactions strictEngine
       [record 1 "10" "a" "" "2024-01-01" "income";
        record 2 "20" "b" "" "2024-03-01" "expense";
        record 3 "30" "c" "" "2024-02-01" "income"])
  /\ sortedTransactions strictEngine
       [record 1 "10" "a" "" "2024-01-01" "income";
        record 2 "20" "b" "" "2024-03-01" "expense";
        record 3 "30" "c" "" "2024-02-01" "income"]
     = [record 2 "20" "b" "" "2024-03-01" "expense";
        record 3 "30" "c" "" "2024-02-01" "income";
        record 1 "10" "a" "" "2024-01-01" "income"].
Proof.
  assert (L : Listed strictEngine
                [record 1 "10" "a" "" "2024-01-01" "income";
                 record 2 "20" "b" "" "2024-03-01" "expense";
                 record 3 "30" "c" "" "2024-02-01" "income"]
                (sortedTransactions strictEngine
                   [record 1 "10" "a" "" "2024-01-01" "income";
                    record 2 "20" "b" "" "2024-03-01" "expense";
                    record 3 "30" "c" "" "2024-02-01" "income"]))
    by apply Array_sort_outcome.
  split; [exact L|].
  exact (proj2 (listed_descending_by_date strictEngine)
           (record 1 "10" "a" "" "2024-01-01" "income")
           (record 2 "20" "b" "" "2024-03-01" "expense")
           (record 3 "30" "c" "" "2024-02-01" "income")
           _ eq_refl eq_refl eq_refl L).
Defined.

(** C8, as stated, fails: with a date the engine cannot read among the
    records the comparator is inconsistent, and the standard then leaves
    the order to the engine.  On these seven records TimSort, which is
    what V8 runs and which keeps ties in order whenever the comparator is
    consistent, finds the run of the first five, puts the sixth where the
    binary search sends it, and then sends the seventh, of 2024-02-01,
    left of the record of 2024-01-01 and so ahead of the fifth, of
    2024-02-01 too, which the undated record had kept behind it: the two
    are shown in the reverse of the order they were added in. *)
Lemma listed_ties_not_in_order :
  ~ Consistent (byDateDescending strictEngine)
      [record 1 "10" "a" "" "2024-05-01" "income";
       record 2 "20" "b" "" "2024-04-01" "income";
       record 3 "30" "c" "" "2024-01-01" "income";
       record 4 "40" "d" "" "unknown" "income";
       record 5 "50" "e" "" "2024-02-01" "income";
       record 6 "60" "f" "" "2024-03-01" "income";
       record 7 "70" "g" "" "2024-02-01" "income"]
  /\ timSort (byDateDescending strictEngine)
       [record 1 "10" "a" "" "2024-05-01" "income";
        record 2 "20" "b" "" "2024-04-01" "income";
        record 3 "30" "c" "" "2024-01-01" "income";
        record 4 "40" "d" "" "unknown" "income";
        record 5 "50" "e" "" "2024-02-01" "income";
        record 6 "60" "f" "" "2024-03-01" "income";
        record 7 "70" "g" "" "2024-02-01" "income"]
     = [record 1 "10" "a" "" "2024-05-01" "income";
        record 2 "20" "b" "" "2024-04-01" "income";
        record 6 "60" "f" "" "2024-03-01" "income";
        record 7 "70" "g" "" "2024-02-01" "income";
        record 3 "30" "c" "" "2024-01-01" "income";
        record 4 "40" "d" "" "unknown" "income";
        record 5 "50" "e" "" "2024-02-01" "income"]
  /\ Listed strictEngine
       [record 1 "10" "a" "" "2024-05-01" "income";
        record 2 "20" "b" "" "2024-04-01" "income";
        record 3 "30" "c" "" "2024-01-01" "income";
        record 4 "40" "d" "" "unknown" "income";
        record 5 "50" "e" "" "2024-02-01" "income";
        record 6 "60" "f" "" "2024-03-01" "income";
        record 7 "70" "g" "" "2024-02-01" "income"]
       [record 1 "10" "a" "" "2024-05-01" "income";
        record 2 "20" "b" "" "2024-04-01" "income";
        record 6 "60" "f" "" "2024-03-01" "income";
        record 7 "70" "g" "" "2024-02-01" "income";
        record 3 "30" "c" "" "2024-01-01" "income";
        record 4 "40" "d" "" "unknown" "income";
        record 5 "50" "e" "" "2024-02-01" "income"]
  /\ filter (sameDate (record 5 "50" "e" "" "2024-02-01" "income"))
       [record 1 "10" "a" "" "2024-05-01" "income";
        record 2 "20" "b" "" "2024-04-01" "income";
        record 6 "60" "f" "" "2024-03-01" "income";
        record 7 "70" "g" "" "2024-02-01" "income";
        record 3 "30" "c" "" "2024-01-01" "income";
        record 4 "40" "d" "" "unknown" "income";
        record 5 "50" "e" "" "2024-02-01" "income"]
     = [record 7 "70" "g" "" "2024-02-01" "income";
        record 5 "50" "e" "" "2024-02-01" "income"]
  /\ filter (sameDate (record 5 "50" "e" "" "2024-02-01" "income"))
       [record 1 "10" "a" "" "2024-05-01" "income";
        record 2 "20" "b" "" "2024-04-01" "income";
        record 6 "60" "f" "" "2024-03-01" "income";
        record 7 "70" "g" "" "2024-02-01" "income";
        record 3 "30" "c" "" "2024-01-01" "income";
        record 4 "40" "d" "" "unknown" "income";
        record 5 "50" "e" "" "2024-02-01" "income"]
     <> filter (sameDate (record 5 "50" "e" "" "2024-02-01" "income"))
          [record 1 "10" "a" "" "2024-05-01" "income";
           record 2 "20" "b" "" "2024-04-01" "income";
           record 3 "30" "c" "" "2024-01-01" "income";
           record 4 "40" "d" "" "unknown" "income";
           record 5 "50" "e" "" "2024-02-01" "income";
           record 6 "60" "f" "" "2024-03-01" "income";
           record 7 "70" "g" "" "2024-02-01" "income"].
Proof.
  assert (E : timSort (byDateDescending strictEngine)
                [record 1 "10" "a" "" "2024-05-01" "income";
                 record 2 "20" "b" "" "2024-04-01" "income";
                 record 3 "30" "c" "" "2024-01-01" "income";
                 record 4 "40" "d" "" "unknown" "income";
                 record 5 "50" "e" "" "2024-02-01" "income";
                 record 6 "60" "f" "" "2024-03-01" "income";
                 record 7 "70" "g" "" "2024-02-01" "income"]
              = [record 1 "10" "a" "" "2024-05-01" "income";
                 record 2 "20" "b" "" "2024-04-01" "income";
                 record 6 "60" "f" "" "2024-03-01" "income";
                 record 7 "70" "g" "" "2024-02-01" "income";
                 record 3 "30" "c" "" "2024-01-01" "income";
                 record 4 "40" "d" "" "unknown" "income";
                 record 5 "50" "e" "" "2024-02-01" "income"])
    by (vm_compute; reflexivity).
  split; [|split; [exact E|split; [|split]]].
  - intros (_ & _ & T & _).
    specialize (T (record 1 "10" "a" "" "2024-05-01" "income")
                  (record 4 "40" "d" "" "unknown" "income")
                  (record 3 "30" "c" "" "2024-01-01" "income")).
    assert (H : SortCompare (byDateDescending strictEngine)
                  (record 1 "10" "a" "" "2024-05-01" "income")
                  (record 3 "30" "c" "" "2024-01-01" "income") = 0).
    { apply T; simpl; auto 10. }
    vm_compute in H; discriminate.
  - rewrite <- E; apply timSort_outcome.
  - vm_compute; reflexivity.
  - vm_compute; discriminate.
Qed.

(** C8, amended.  For every collection whose records all have a date the
    engine can read, the list shown keeps the records of one day, and so
    the records of one date string, in the order in which the collection
    holds them, which is the order they were added in. *)
Theorem listed_ties_keep_order
  (legacy : jsstring -> option Z) (ts rows : list Transaction)
  (x : Transaction) :
  datesValid legacy ts -> Listed legacy ts rows -> In x ts ->
  filter (sameDay legacy x) rows = filter (sameDay legacy x) ts
  /\ filter (sameDate x) rows = filter (sameDate x) ts.
Proof.
  intros V L Hx; split.
  - apply Listed_sameDay; assumption.
  - apply (Listed_sameDate legacy); assumption.
Qed.

Lemma listed_ties_keep_order_witness :
  (datesValid strictEngine
     [record 1 "10" "a" "" "2024-01-01" "income";
      record 2 "20" "b" "" "2024-03-01" "expense";
      record 3 "30" "c" "" "2024-01-01" "income"]
   /\ Listed strictEngine
        [record 1 "10" "a" "" "2024-01-01" "income";
         record 2 "20" "b" "" "2024-03-01" "expense";
         record 3 "30" "c" "" "2024-01-01" "income"]
        (sortedTransactions strictEngine
           [record 1 "10" "a" "" "2024-01-01" "income";
            record 2 "20" "b" "" "2024-03-01" "expense";
            record 3 "30" "c" "" "2024-01-01" "income"])
   /\ In (record 1 "10" "a" "" "2024-01-01" "income")
        [record 1 "10" "a" "" "2024-01-01" "income";
         record 2 "20" "b" "" "2024-03-01" "expense";
         record 3 "30" "c" "" "2024-01-01" "income"])
  /\ filter (sameDate (record 1 "10" "a" "" "2024-01-01" "income"))
       (sortedTransactions strictEngine
          [record 1 "10" "a" "" "2024-01-01" "income";
           record 2 "20" "b" "" "2024-03-01" "expense";
           record 3 "30" "c" "" "2024-01-01" "income"])
     = filter (sameDate (record 1 "10" "a" "" "2024-01-01" "income"))
         [record 1 "10" "a" "" "2024-01-01" "income";
          record 2 "20" "b" "" "2024-03-01" "expense";
          record 3 "30" "c" "" "2024-01-01" "income"].
Proof.
  assert (V : datesValid strictEngine
                [record 1 "10" "a" "" "2024-01-01" "income";
                 record 2 "20" "b" "" "2024-03-01" "expense";
                 record 3 "30" "c" "" "2024-01-01" "income"]).
  { intros t [<-|[<-|[<-|[]]]]; discriminate. }
  assert (L : Listed strictEngine
                [record 1 "10" "a" "" "2024-01-01" "income";
                 record 2 "20" "b" "" "2024-03-01" "expense";
                 record 3 "30" "c" "" "2024-01-01" "income"]
                (sortedTransactions strictEngine
                   [record 1 "10" "a" "" "2024-01-01" "income";
                    record 2 "20" "b" "" "2024-03-01" "expense";
                    record 3 "30" "c" "" "2024-01-01" "income"]))
    by apply Array_sort_outcome.
  assert (I : In (record 1 "10" "a" "" "2024-01-01" "income")
                [record 1 "10" "a" "" "2024-01-01" "income";
                 record 2 "20" "b" "" "2024-03-01" "expense";
                 record 3 "30" "c" "" "2024-01-01" "income"])
    by (left; reflexivity).
  split; [split; [exact V | split; [exact L | exact I]]|].
  exact (proj2 (listed_ties_keep_order strictEngine _ _ _ V L I)).
Defined.

(** ** Numbers written and read back *)

Lemma isDigit_true_iff (c : N) : isDigit c = true <-> (48 <= c <= 57)%N.
Proof.
  unfold isDigit; rewrite andb_true_iff, !N.leb_le; tauto.
Qed.

Lemma readDigits_run (ds rest : jsstring) (acc : Z) (n : nat) :
  Forall (fun c => isDigit c = true) ds ->
  match rest with [] => True | c :: _ => isDigit c = false end ->
  readDigits (ds ++ rest) acc n
  = (fold_left (fun a c => 10 * a + digitValue c) ds acc,
     (n + List.length ds)%nat, rest).
Proof.
  intros Hd Hr; revert acc n.
  induction Hd as [|c ds Hc _ IH]; intros acc n; simpl.
  - rewrite Nat.add_0_r; destruct rest as [|c rest]; [reflexivity|].
    simpl; rewrite Hr; reflexivity.
  - rewrite Hc, IH; f_equal; f_equal; lia.
Qed.

Lemma digitsOf_spec (fuel : nat) : forall (n : Z) (acc : jsstring),
  (0 < fuel)%nat -> 0 <= n < 10 ^ Z.of_nat fuel ->
  exists ds,
    digitsOf fuel n acc = ds ++ acc
    /\ Forall (fun c => isDigit c = true) ds
    /\ (forall a, fold_left (fun a c => 10 * a + digitValue c) ds a
                  = a * 10 ^ Z.of_nat (List.length ds) + n)
    /\ exists c ds', ds = c :: ds' /\ (0 < n -> c <> 48%N).
Proof.
  induction fuel as [|f IH]; intros n acc Hf Hn; [lia|].
  cbn [digitsOf].
  assert (Hm : 0 <= n mod 10 < 10) by (apply Z.mod_pos_bound; lia).
  assert (Hc : isDigit (Z.to_N (48 + n mod 10)) = true)
    by (apply isDigit_true_iff; lia).
  assert (Hv : digitValue (Z.to_N (48 + n mod 10)) = n mod 10)
    by (unfold digitValue; lia).
  destruct (n <? 10) eqn:E.
  - apply Z.ltb_lt in E.
    exists [Z.to_N (48 + n mod 10)]; repeat split.
    + repeat constructor; exact Hc.
    + intros a; cbn [fold_left List.length]; rewrite Hv, Z.mod_small by lia; lia.
    + exists (Z.to_N (48 + n mod 10)), []; split; [reflexivity|].
      rewrite Z.mod_small by lia; lia.
  - apply Z.ltb_ge in E.
    assert (Hf' : (0 < f)%nat).
    { destruct f; [simpl in Hn; lia | lia]. }
    assert (Hq : 0 <= n / 10 < 10 ^ Z.of_nat f).
    { split; [apply Z.div_pos; lia|].
      apply Z.div_lt_upper_bound; [lia|].
      rewrite Nat2Z.inj_succ, Z.pow_succ_r in Hn by lia; lia. }
    destruct (IH (n / 10) (Z.to_N (48 + n mod 10) :: acc) Hf' Hq)
      as (ds & Eds & Fds & Vds & c & ds' & Ec & Nc).
    exists (ds ++ [Z.to_N (48 + n mod 10)]); repeat split.
    + rewrite Eds, <- app_assoc; reflexivity.
    + apply Forall_app; split; [exact Fds | repeat constructor; exact Hc].
    + intros a; rewrite fold_left_app, Vds; cbn [fold_left]; rewrite Hv.
      rewrite length_app, Nat2Z.inj_add, Z.pow_add_r by lia.
      cbn [List.length]; change (10 ^ Z.of_nat 1) with 10.
      pose proof (Z.div_mod n 10 ltac:(lia)); lia.
    + exists c, (ds' ++ [Z.to_N (48 + n mod 10)]); split.
      * rewrite Ec; reflexivity.
      * intros _; apply Nc.
        assert (1 <= n / 10) by (apply Z.div_le_lower_bound; lia); lia.
Qed.

Lemma Zpos_lt_pow10 (p : positive) : Zpos p < 10 ^ Z.of_nat (Pos.size_nat p).
Proof.
  apply Z.lt_le_trans with (2 ^ Z.of_nat (Pos.size_nat p)).
  - induction p as [p IH|p IH|]; cbn [Pos.size_nat];
      rewrite ?Nat2Z.inj_succ, ?Z.pow_succ_r by lia;
      [lia | lia | reflexivity].
  - apply Z.pow_le_mono_l; lia.
Qed.

(** The text of an integer: an optional minus sign, then at least one
    digit, without a superfluous leading zero; read back, the digits spell
    the integer's magnitude. *)
Lemma numberToString_shape (n : Z) :
  exists sign ds c ds',
    numberToString n = sign ++ ds
    /\ sign = (if n <? 0 then [45%N] else [])
    /\ ds = c :: ds'
    /\ Forall (fun c => isDigit c = true) ds
    /\ (ds' <> [] -> c <> 48%N)
    /\ fold_left (fun a c => 10 * a + digitValue c) ds 0 = Z.abs n.
Proof.
  assert (P : forall p, exists ds c ds',
             digitsOf (Pos.size_nat p) (Zpos p) [] = ds
             /\ ds = c :: ds'
             /\ Forall (fun c => isDigit c = true) ds
             /\ c <> 48%N
             /\ fold_left (fun a c => 10 * a + digitValue c) ds 0 = Zpos p).
  { intros p.
    destruct (digitsOf_spec (Pos.size_nat p) (Zpos p) [])
      as (ds & E & F & V & c & ds' & Ec & Nc).
    - destruct p; cbn [Pos.size_nat]; lia.
    - split; [lia | apply Zpos_lt_pow10].
    - exists ds, c, ds'; rewrite app_nil_r in E.
      split; [exact E|]; split; [exact Ec|]; split; [exact F|].
      split; [apply Nc; lia | rewrite V; lia]. }
  destruct n as [|p|p].
  - exists [], [48%N], 48%N, [].
    split; [reflexivity|]; split; [reflexivity|]; split; [reflexivity|].
    split; [repeat constructor|]; split; [intros H; contradiction|].
    reflexivity.
  - destruct (P p) as (ds & c & ds' & E & Ec & F & Nc & V).
    exists [], ds, c, ds'.
    split; [exact E|]; split; [reflexivity|]; split; [exact Ec|].
    split; [exact F|]; split; [intros _; exact Nc | exact V].
  - destruct (P p) as (ds & c & ds' & E & Ec & F & Nc & V).
    exists [45%N], ds, c, ds'.
    split; [cbn [numberToString app]; rewrite E; reflexivity|].
    split; [reflexivity|]; split; [exact Ec|].
    split; [exact F|]; split; [intros _; exact Nc | exact V].
Qed.

Lemma digit_not_whiteSpace (c : N) :
  (c = 45 \/ 48 <= c <= 57)%N -> isWhiteSpace c = false.
Proof.
  intros H; unfold isWhiteSpace; simpl; unit_cases; reflexivity.
Qed.

(** The id of a row, written into its [data-id] and parsed again by
    [handleListClick], is the id. *)
Lemma parseInt10_numberToString (n : Z) :
  parseInt10 (numberToString n) = Some n.
Proof.
  destruct (numberToString_shape n)
    as (sign & ds & c & ds' & E & Es & Ed & F & _ & V).
  unfold parseInt10; rewrite E, Es, Ed.
  assert (Hc : (48 <= c <= 57)%N).
  { apply isDigit_true_iff; rewrite Ed in F; inversion F; assumption. }
  destruct (n <? 0) eqn:Hn.
  - cbn [app trimStart]; rewrite digit_not_whiteSpace by (left; reflexivity).
    cbn [N.eqb Pos.eqb].
    rewrite <- Ed, <- (app_nil_r ds), readDigits_run, V by (auto; exact I).
    rewrite Ed; simpl; apply Z.ltb_lt in Hn; f_equal; lia.
  - cbn [app trimStart]; rewrite digit_not_whiteSpace by (right; exact Hc).
    replace (c =? 45)%N with false by (symmetry; apply N.eqb_neq; lia).
    replace (c =? 43)%N with false by (symmetry; apply N.eqb_neq; lia).
    rewrite <- Ed, <- (app_nil_r ds), readDigits_run, V by (auto; exact I).
    rewrite Ed; simpl; apply Z.ltb_ge in Hn; f_equal; lia.
Qed.

(** A deletion confirmed from the row of [t], in either revision, removes
    the records of the id of [t] and no other. *)
Lemma confirmedDelete_row (r : revision) (t : Transaction) (st : State) :
  transactions (confirmedDelete r (numberToString (id t)) st)
  = filter (fun u => negb (id u =? id t)) (transactions st).
Proof.
  rewrite confirmedDelete_removes, parseInt10_numberToString; reflexivity.
Qed.

(** ** Strings quoted and read back *)

Lemma hexValue_hexDigit (d : N) : (d < 16)%N -> hexValue (hexDigit d) = Some d.
Proof.
  intros H; unfold hexValue, hexDigit, isDigit.
  destruct (N.ltb_spec d 10); unit_cases; cbn [andb]; f_equal; lia.
Qed.

Lemma hex4_value (c : N) :
  (c < 65536 ->
   4096 * (c / 4096 mod 16) + 256 * (c / 256 mod 16) + 16 * (c / 16 mod 16)
   + c mod 16 = c)%N.
Proof.
  intros H; zify; Z.to_euclidean_division_equations; lia.
Qed.

Lemma parseChars_unicodeEscape (c : N) (tail : jsstring) :
  (c < 65536)%N ->
  parseChars (unicodeEscape c ++ tail) = consUnit c (parseChars tail).
Proof.
  intros H; unfold unicodeEscape; cbn [app parseChars].
  cbn [N.eqb Pos.eqb].
  rewrite !hexValue_hexDigit by (apply N.mod_lt; discriminate).
  rewrite hex4_value by exact H; reflexivity.
Qed.

Lemma parseChars_quoteUnit (c : N) (tail : jsstring) :
  parseChars (quoteUnit c ++ tail) = consUnit c (parseChars tail).
Proof.
  unfold quoteUnit, isLeadSurrogate, isTrailSurrogate.
  unit_cases; subst; try reflexivity; cbn [orb andb].
  all: try (apply parseChars_unicodeEscape; lia).
  all: cbn [app parseChars]; unit_cases; reflexivity.
Qed.

Lemma parseChars_quoteUnits (s rest : jsstring) :
  parseChars (quoteUnits s ++ 34%N :: rest) = Some (s, rest).
Proof.
  assert (P : forall n s, (List.length s <= n)%nat ->
              parseChars (quoteUnits s ++ 34%N :: rest) = Some (s, rest)).
  { induction n as [|n IH]; intros [|c s1] L; simpl in L; try lia;
      try reflexivity.
    cbn [quoteUnits].
    assert (Q : parseChars ((quoteUnit c ++ quoteUnits s1) ++ 34%N :: rest)
                = Some (c :: s1, rest)).
    { rewrite <- app_assoc, parseChars_quoteUnit, IH by lia; reflexivity. }
    destruct (isLeadSurrogate c) eqn:Lc; [|exact Q].
    destruct s1 as [|d s2]; [rewrite app_nil_r in Q; exact Q|].
    destruct (isTrailSurrogate d) eqn:Td; [|exact Q].
    unfold isLeadSurrogate, isTrailSurrogate in *.
    rewrite andb_true_iff, !N.leb_le in Lc, Td.
    cbn [app parseChars]; unit_cases.
    rewrite IH by (simpl in L; lia); reflexivity. }
  apply (P (List.length s)); lia.
Qed.

(** ** The ledger written and read back *)

Lemma parseValue_string (f : nat) (s rest : jsstring) :
  parseValue (S f) (QuoteJSONString s ++ rest) = Parsed (VStr s) rest.
Proof.
  unfold QuoteJSONString; cbn [app parseValue skipWS].
  change (isJSONWhiteSpace 34) with false; cbn iota.
  change (34 =? 34)%N with true; cbn iota.
  rewrite <- app_assoc; cbn [app]; rewrite parseChars_quoteUnits; reflexivity.
Qed.

Lemma parseNumber_numberToString (n : Z) (rest : jsstring) :
  parseNumber (numberToString n ++ 44%N :: rest)
  = Some (VNum n 0, 44%N :: rest).
Proof.
  destruct (numberToString_shape n)
    as (sign & ds & c & ds' & E & Es & Ed & F & Nz & V).
  assert (Hc : (48 <= c <= 57)%N).
  { apply isDigit_true_iff; rewrite Ed in F; inversion F; assumption. }
  assert (R : readDigits (ds ++ 44%N :: rest) 0 0%nat
              = (Z.abs n, S (List.length ds'), 44%N :: rest)).
  { rewrite readDigits_run, V by (auto; reflexivity).
    rewrite Ed; reflexivity. }
  assert (Z0 : ((c =? 48)%N && (1 <? S (List.length ds'))%nat)%bool = false).
  { destruct ds' as [|d ds'']; [apply andb_false_r|].
    replace (c =? 48)%N with false; [reflexivity|].
    symmetry; apply N.eqb_neq, Nz; discriminate. }
  rewrite Ed in R; cbn [app] in R.
  unfold parseNumber; rewrite E, Es, Ed.
  destruct (n <? 0) eqn:Hn; cbn [app].
  - change (45 =? 45)%N with true; cbn iota.
    rewrite R, Z0; cbn.
    apply Z.ltb_lt in Hn; do 3 f_equal; lia.
  - replace (c =? 45)%N with false by (symmetry; apply N.eqb_neq; lia).
    cbn iota; rewrite R, Z0; cbn.
    apply Z.ltb_ge in Hn; do 3 f_equal; lia.
Qed.

Lemma parseValue_number (f : nat) (n : Z) (rest : jsstring) :
  parseValue (S f) (numberToString n ++ 44%N :: rest)
  = Parsed (VNum n 0) (44%N :: rest).
Proof.
  pose proof (parseNumber_numberToString n rest) as P.
  destruct (numberToString_shape n)
    as (sign & ds & c & ds' & E & Es & Ed & F & _ & _).
  assert (Hc : (48 <= c <= 57)%N).
  { apply isDigit_true_iff; rewrite Ed in F; inversion F; assumption. }
  assert (H : exists c0 s0, numberToString n = c0 :: s0
                            /\ (c0 = 45 \/ 48 <= c0 <= 57)%N).
  { rewrite E, Es, Ed; destruct (n <? 0); cbn [app]; eauto 6. }
  destruct H as (c0 & s0 & E0 & H0).
  rewrite E0 in *; cbn [app] in *; cbn [parseValue skipWS].
  unfold isJSONWhiteSpace; unit_cases; cbn [orb]; cbn iota; unit_cases.
  rewrite P; reflexivity.
Qed.

Lemma parseMembers_more (f : nat) (k vtext more : jsstring) (v : value)
  (ms : list (jsstring * value)) (r : jsstring) :
  parseValue f (vtext ++ 44%N :: more) = Parsed v (44%N :: more) ->
  parseMembers f more = Parsed ms r ->
  parseMembers (S f) (QuoteJSONString k ++ 58%N :: vtext ++ 44%N :: more)
  = Parsed ((k, v) :: ms) r.
Proof.
  intros Hv Hm; unfold QuoteJSONString; cbn [app parseMembers skipWS].
  change (isJSONWhiteSpace 34) with false; cbn iota.
  change (negb (34 =? 34)%N) with false; cbn iota.
  rewrite <- app_assoc; cbn [app]; rewrite parseChars_quoteUnits.
  cbn [skipWS]; change (isJSONWhiteSpace 58) with false; cbn iota.
  change (negb (58 =? 58)%N) with false; cbn iota.
  rewrite Hv; cbn [skipWS]; change (isJSONWhiteSpace 44) with false; cbn iota.
  change (44 =? 44)%N with true; cbn iota; rewrite Hm; reflexivity.
Qed.

Lemma parseMembers_last (f : nat) (k vtext rest : jsstring) (v : value) :
  parseValue f (vtext ++ 125%N :: rest) = Parsed v (125%N :: rest) ->
  parseMembers (S f) (QuoteJSONString k ++ 58%N :: vtext ++ 125%N :: rest)
  = Parsed [(k, v)] rest.
Proof.
  intros Hv; unfold QuoteJSONString; cbn [app parseMembers skipWS].
  change (isJSONWhiteSpace 34) with false; cbn iota.
  change (negb (34 =? 34)%N) with false; cbn iota.
  rewrite <- app_assoc; cbn [app]; rewrite parseChars_quoteUnits.
  cbn [skipWS]; change (isJSONWhiteSpace 58) with false; cbn iota.
  change (negb (58 =? 58)%N) with false; cbn iota.
  rewrite Hv; cbn [skipWS]; change (isJSONWhiteSpace 125) with false; cbn iota.
  change (125 =? 44)%N with false; change (125 =? 125)%N with true.
  reflexivity.
Qed.

Lemma parseValue_object (f : nat) (k tl : jsstring)
  (ms : list (jsstring * value)) (r : jsstring) :
  parseMembers f (QuoteJSONString k ++ tl) = Parsed ms r ->
  parseValue (S f) (123%N :: QuoteJSONString k ++ tl) = Parsed (VObj ms) r.
Proof.
  intros H; cbn [parseValue skipWS].
  change (isJSONWhiteSpace 123) with false; cbn iota.
  change (123 =? 34)%N with false; change (123 =? 91)%N with false;
    change (123 =? 123)%N with true; cbn iota.
  rewrite H; unfold QuoteJSONString; cbn [app skipWS].
  change (isJSONWhiteSpace 34) with false; cbn iota.
  change (34 =? 125)%N with false; reflexivity.
Qed.

Lemma stringifyTransaction_text (t : Transaction) (rest : jsstring) :
  stringifyTransaction t ++ rest
  = 123%N :: QuoteJSONString (js "id") ++ 58%N :: numberToString (id t)
    ++ 44%N :: QuoteJSONString (js "amount") ++ 58%N
    :: QuoteJSONString (amount t)
    ++ 44%N :: QuoteJSONString (js "category") ++ 58%N
    :: QuoteJSONString (category t)
    ++ 44%N :: QuoteJSONString (js "description") ++ 58%N
    :: QuoteJSONString (description t)
    ++ 44%N :: QuoteJSONString (js "date") ++ 58%N
    :: QuoteJSONString (date t)
    ++ 44%N :: QuoteJSONString (js "type") ++ 58%N
    :: QuoteJSONString (type t) ++ 125%N :: rest.
Proof.
  unfold stringifyTransaction.
  change (js "{") with [123%N]; change (js ":") with [58%N];
    change (js ",") with [44%N]; change (js "}") with [125%N].
  repeat (rewrite <- app_assoc; cbn [app]); reflexivity.
Qed.

Lemma parseValue_transaction (f : nat) (t : Transaction) (rest : jsstring) :
  parseValue (8 + f) (stringifyTransaction t ++ rest)
  = Parsed (toObject t) rest.
Proof.
  rewrite stringifyTransaction_text.
  change (8 + f)%nat with (S (S (S (S (S (S (S (S f)))))))).
  apply parseValue_object.
  apply parseMembers_more; [apply parseValue_number|].
  do 4 (apply parseMembers_more; [apply parseValue_string|]).
  apply parseMembers_last, parseValue_string.
Qed.

Lemma parseElements_transactions (ts : list Transaction) :
  forall (t : Transaction) (f : nat) (rest : jsstring),
  parseElements (9 + List.length ts + f)
    (joinElements (map stringifyTransaction (t :: ts)) ++ 93%N :: rest)
  = Parsed (map toObject (t :: ts)) rest.
Proof.
  induction ts as [|t' ts IH]; intros t f rest.
  - cbn [map joinElements List.length Nat.add parseElements].
    rewrite (parseValue_transaction f); cbn [skipWS].
    change (isJSONWhiteSpace 93) with false; cbn iota.
    change (93 =? 44)%N with false; change (93 =? 93)%N with true.
    reflexivity.
  - change (joinElements (map stringifyTransaction (t :: t' :: ts)))
      with (stringifyTransaction t ++ js ","
            ++ joinElements (map stringifyTransaction (t' :: ts))).
    change (js ",") with [44%N].
    rewrite <- !app_assoc; cbn [app].
    replace (9 + List.length (t' :: ts) + f)%nat
      with (S (8 + (1 + List.length ts + f)))%nat by (cbn [List.length]; lia).
    cbn [parseElements].
    rewrite parseValue_transaction; cbn [skipWS].
    change (isJSONWhiteSpace 44) with false; cbn iota.
    change (44 =? 44)%N with true; cbn iota.
    replace (8 + (1 + List.length ts + f))%nat
      with (9 + List.length ts + f)%nat by lia.
    rewrite IH; reflexivity.
Qed.

Lemma parseValue_ledger (ts : list Transaction) (f : nat) (rest : jsstring) :
  parseValue (10 + List.length ts + f) (JSON_stringify ts ++ rest)
  = Parsed (toArray ts) rest.
Proof.
  unfold JSON_stringify, toArray.
  change (js "[") with [91%N]; change (js "]") with [93%N].
  rewrite <- !app_assoc; cbn [app].
  destruct ts as [|t ts]; [reflexivity|].
  replace (10 + List.length (t :: ts) + f)%nat
    with (S (9 + List.length ts + (1 + f)))%nat by (cbn [List.length]; lia).
  cbn [parseValue skipWS].
  change (isJSONWhiteSpace 91) with false; cbn iota.
  change (91 =? 34)%N with false; change (91 =? 91)%N with true; cbn iota.
  rewrite parseElements_transactions.
  change (joinElements (map stringifyTransaction (t :: ts)))
    with (joinElements (stringifyTransaction t
                        :: map stringifyTransaction ts)).
  destruct (map stringifyTransaction ts) as [|x xs];
    cbn [joinElements]; rewrite ?stringifyTransaction_text; cbn [app skipWS];
    change (isJSONWhiteSpace 123) with false; cbn iota;
    change (123 =? 93)%N with false; reflexivity.
Qed.

Lemma stringifyTransaction_length (t : Transaction) :
  (4 <= List.length (stringifyTransaction t))%nat.
Proof.
  rewrite <- (app_nil_r (stringifyTransaction t)), stringifyTransaction_text.
  unfold QuoteJSONString.
  do 3 (cbn [List.length app]; rewrite ?length_app).
  cbn [List.length]; lia.
Qed.

Lemma joinElements_length (ts : list Transaction) :
  (4 * List.length ts
   <= List.length (joinElements (map stringifyTransaction ts)))%nat.
Proof.
  induction ts as [|t ts IH]; [simpl; lia|].
  pose proof (stringifyTransaction_length t).
  destruct ts as [|t' ts]; [cbn [map joinElements List.length]; lia|].
  change (joinElements (map stringifyTransaction (t :: t' :: ts)))
    with (stringifyTransaction t ++ js ","
          ++ joinElements (map stringifyTransaction (t' :: ts))).
  rewrite !length_app; cbn [List.length] in *; lia.
Qed.

(** What [JSON.stringify] writes of a collection, [JSON.parse] reads as the
    array of its records. *)
Lemma JSON_parse_stringify (ts : list Transaction) :
  JSON_parse (JSON_stringify ts) = Normal (toArray ts).
Proof.
  destruct ts as [|t ts]; [reflexivity|].
  unfold JSON_parse.
  pose proof (joinElements_length (t :: ts)) as L.
  assert (E : exists f, S (2 * List.length (JSON_stringify (t :: ts)))
                        = (10 + List.length (t :: ts) + f)%nat).
  { exists (S (2 * List.length (JSON_stringify (t :: ts)))
            - (10 + List.length (t :: ts)))%nat.
    unfold JSON_stringify; rewrite !length_app.
    change (List.length (js "[")) with 1%nat.
    change (List.length (js "]")) with 1%nat.
    cbn [List.length] in *; lia. }
  destruct E as [f E]; rewrite E.
  rewrite <- (app_nil_r (JSON_stringify (t :: ts))) at 1.
  rewrite parseValue_ledger; reflexivity.
Qed.

Lemma asTransaction_toObject (t : Transaction) :
  asTransaction (toObject t) = Some t.
Proof.
  destruct t as [i a c d dt ty]; cbn.
  rewrite Z.mul_1_r; reflexivity.
Qed.

Lemma asLedger_toArray (ts : list Transaction) : asLedger (toArray ts) = Some ts.
Proof.
  unfold toArray, asLedger.
  induction ts as [|t ts IH]; [reflexivity|].
  cbn [map asTransactions]; rewrite asTransaction_toObject, IH; reflexivity.
Qed.

(** ** Fuel *)

Lemma skipWS_length (s : jsstring) :
  (List.length (skipWS s) <= List.length s)%nat.
Proof.
  induction s as [|c s IH]; simpl; [lia|].
  destruct (isJSONWhiteSpace c); simpl; lia.
Qed.

Lemma skipWS_cons_length (s s1 : jsstring) (c : N) :
  skipWS s = c :: s1 -> (List.length s1 < List.length s)%nat.
Proof.
  intros H; pose proof (skipWS_length s) as L; rewrite H in L; simpl in L; lia.
Qed.

Lemma readDigits_length (s : jsstring) : forall acc n v k r,
  readDigits s acc n = (v, k, r) ->
  (List.length r + k = List.length s + n)%nat.
Proof.
  induction s as [|c s IH]; intros acc n v k r H; simpl in H.
  - inversion H; subst; reflexivity.
  - destruct (isDigit c).
    + apply IH in H; simpl; lia.
    + inversion H; subst; reflexivity.
Qed.

Lemma consUnit_Some c x str r :
  consUnit c x = Some (str, r) -> exists str', x = Some (str', r).
Proof.
  destruct x as [[str' r']|]; simpl; [|discriminate].
  intros H; inversion H; subst; eauto.
Qed.

Lemma parseChars_length (s : jsstring) : forall str r,
  parseChars s = Some (str, r) -> (List.length r < List.length s)%nat.
Proof.
  assert (P : forall n s, (List.length s <= n)%nat -> forall str r,
              parseChars s = Some (str, r) ->
              (List.length r < List.length s)%nat).
  { induction n as [|n IH]; intros [|c s1] L str r H; simpl in L;
      try lia; try discriminate.
    cbn [parseChars] in H.
    destruct (c =? 34)%N; [inversion H; subst; simpl; lia|].
    destruct (c =? 92)%N.
    - destruct s1 as [|e s2]; [discriminate|].
      destruct (e =? 117)%N.
      + destruct s2 as [|h1 [|h2 [|h3 [|h4 s3]]]]; try discriminate.
        destruct (hexValue h1), (hexValue h2), (hexValue h3), (hexValue h4);
          try discriminate.
        apply consUnit_Some in H; destruct H as [str' H].
        apply IH in H; simpl in *; lia.
      + destruct (escapeValue e); [|discriminate].
        apply consUnit_Some in H; destruct H as [str' H].
        apply IH in H; simpl in *; lia.
    - destruct (c <? 32)%N; [discriminate|].
      apply consUnit_Some in H; destruct H as [str' H].
      apply IH in H; simpl in *; lia. }
  intros str r; apply (P (List.length s)); lia.
Qed.

Lemma expect_length (lit : jsstring) : forall s r,
  expect lit s = Some r -> (List.length r + List.length lit = List.length s)%nat.
Proof.
  induction lit as [|x lit IH]; intros s r H; simpl in H.
  - inversion H; subst; simpl; lia.
  - destruct s as [|y s]; [discriminate|].
    destruct (x =? y)%N; [|discriminate].
    apply IH in H; simpl; lia.
Qed.

Lemma literal_length (lit : string) (v w : value) (s r : jsstring) :
  lit <> ""%string ->
  literal lit v s = Parsed w r -> (List.length r < List.length s)%nat.
Proof.
  unfold literal; intros Hl H.
  destruct (expect (js lit) s) eqn:E; [|discriminate].
  inversion H; subst; apply expect_length in E.
  destruct lit; [contradiction|]; simpl in E; lia.
Qed.

Lemma parseNumber_length (s : jsstring) (v : value) (r : jsstring) :
  parseNumber s = Some (v, r) -> (List.length r < List.length s)%nat.
Proof.
  unfold parseNumber; intros H.
  destruct (match s with
            | [] => (false, s)
            | c :: s' => if (c =? 45)%N then (true, s') else (false, s)
            end) as [neg s1] eqn:E1.
  assert (L1 : (List.length s1 <= List.length s)%nat).
  { destruct s as [|c s']; [inversion E1; subst; auto|].
    destruct (c =? 45)%N; inversion E1; subst; simpl; lia. }
  destruct (readDigits s1 0 0%nat) as [[ip ni] s2] eqn:R1.
  apply readDigits_length in R1.
  match type of H with
  | (if ?b then _ else _) = _ => destruct b eqn:B; [discriminate|]
  end.
  apply orb_false_iff in B; destruct B as [B _]; apply Nat.eqb_neq in B.
  match type of H with
  | match ?x with _ => _ end = _ =>
      destruct x as [[[m nf] s3]|] eqn:E2; [|discriminate]
  end.
  assert (L3 : (List.length s3 <= List.length s2)%nat).
  { destruct s2 as [|d s2']; [inversion E2; subst; lia|].
    destruct (d =? 46)%N; [|inversion E2; subst; lia].
    destruct (readDigits s2' ip 0%nat) as [[m' nf'] s3'] eqn:R2.
    apply readDigits_length in R2.
    destruct (nf' =? 0)%nat; [discriminate|].
    inversion E2; subst; simpl; lia. }
  destruct s3 as [|e s4]; [inversion H; subst; simpl in *; lia|].
  destruct ((e =? 101) || (e =? 69))%N;
    [|inversion H; subst; simpl in *; lia].
  destruct (match s4 with
            | [] => (false, s4)
            | d :: s5 =>
                if (d =? 45)%N then (true, s5)
                else if (d =? 43)%N then (false, s5) else (false, s4)
            end) as [eneg s5'] eqn:E3.
  assert (L5 : (List.length s5' <= List.length s4)%nat).
  { destruct s4 as [|d s5]; [inversion E3; subst; simpl; lia|].
    destruct (d =? 45)%N; [inversion E3; subst; simpl; lia|].
    destruct (d =? 43)%N; inversion E3; subst; simpl; lia. }
  destruct (readDigits s5' 0 0%nat) as [[ex ne] s6] eqn:R3.
  apply readDigits_length in R3.
  destruct (ne =? 0)%nat; [discriminate|].
  inversion H; subst; simpl in *; lia.
Qed.

(** Fuel of twice the length of the text, and one more, is never used up;
    and whatever is parsed, something was read. *)
Lemma parse_fuel (f : nat) :
  (forall s, (2 * List.length s + 1 <= f)%nat ->
     parseValue f s <> OutOfFuel
     /\ forall v r, parseValue f s = Parsed v r ->
                    (List.length r < List.length s)%nat)
  /\ (forall s, (2 * List.length s + 2 <= f)%nat ->
        parseElements f s <> OutOfFuel
        /\ forall vs r, parseElements f s = Parsed vs r ->
                        (List.length r < List.length s)%nat)
  /\ (forall s, (2 * List.length s + 2 <= f)%nat ->
        parseMembers f s <> OutOfFuel
        /\ forall ms r, parseMembers f s = Parsed ms r ->
                        (List.length r < List.length s)%nat).
Proof.
  induction f as [|f (IHv & IHe & IHm)]; [repeat split; intros; lia|].
  split; [|split]; intros s Hs.
  - cbn [parseValue].
    destruct (skipWS s) as [|c s1] eqn:W; [parsed_done|].
    pose proof (skipWS_cons_length _ _ _ W) as L1.
    destruct (c =? 34)%N.
    { destruct (parseChars s1) as [[str rest]|] eqn:P; [|parsed_done].
      apply parseChars_length in P; parsed_done. }
    destruct (c =? 91)%N.
    { destruct (skipWS s1) as [|d s2] eqn:W2; [parsed_done|].
      pose proof (skipWS_cons_length _ _ _ W2) as L2.
      destruct (d =? 93)%N; [parsed_done|].
      destruct (IHe s1 ltac:(lia)) as [NE LE].
      destruct (parseElements f s1) as [vs rest| |] eqn:PE;
        [specialize (LE _ _ eq_refl); parsed_done | parsed_done | congruence]. }
    destruct (c =? 123)%N.
    { destruct (skipWS s1) as [|d s2] eqn:W2; [parsed_done|].
      pose proof (skipWS_cons_length _ _ _ W2) as L2.
      destruct (d =? 125)%N; [parsed_done|].
      destruct (IHm s1 ltac:(lia)) as [NM LM].
      destruct (parseMembers f s1) as [ms rest| |] eqn:PM;
        [specialize (LM _ _ eq_refl); parsed_done | parsed_done | congruence]. }
    assert (Lit : forall lit v,
              lit <> ""%string ->
              literal lit v (c :: s1) <> OutOfFuel
              /\ forall w r, literal lit v (c :: s1) = Parsed w r ->
                             (List.length r < List.length s)%nat).
    { intros lit v Hl; split.
      - unfold literal; destruct (expect (js lit) (c :: s1)); discriminate.
      - intros w r E; apply literal_length in E; [simpl in E; lia | exact Hl]. }
    destruct (c =? 110)%N; [apply Lit; discriminate|].
    destruct (c =? 116)%N; [apply Lit; discriminate|].
    destruct (c =? 102)%N; [apply Lit; discriminate|].
    destruct (parseNumber (c :: s1)) as [[v rest]|] eqn:P; [|parsed_done].
    apply parseNumber_length in P; simpl in P; parsed_done.
  - cbn [parseElements].
    destruct (IHv s ltac:(lia)) as [NV LV].
    destruct (parseValue f s) as [v r| |] eqn:PV;
      [specialize (LV _ _ eq_refl) | parsed_done | congruence].
    destruct (skipWS r) as [|c r1] eqn:W; [parsed_done|].
    pose proof (skipWS_cons_length _ _ _ W) as L1.
    destruct (c =? 44)%N.
    { destruct (IHe r1 ltac:(lia)) as [NE LE].
      destruct (parseElements f r1) as [vs rest| |] eqn:PE;
        [specialize (LE _ _ eq_refl); parsed_done | parsed_done | congruence]. }
    destruct (c =? 93)%N; parsed_done.
  - cbn [parseMembers].
    destruct (skipWS s) as [|c s1] eqn:W; [parsed_done|].
    pose proof (skipWS_cons_length _ _ _ W) as L1.
    destruct (negb (c =? 34)%N); [parsed_done|].
    destruct (parseChars s1) as [[k r]|] eqn:P; [|parsed_done].
    apply parseChars_length in P.
    destruct (skipWS r) as [|d r1] eqn:W1; [parsed_done|].
    pose proof (skipWS_cons_length _ _ _ W1) as L2.
    destruct (negb (d =? 58)%N); [parsed_done|].
    destruct (IHv r1 ltac:(lia)) as [NV LV].
    destruct (parseValue f r1) as [v r2| |] eqn:PV;
      [specialize (LV _ _ eq_refl) | parsed_done | congruence].
    destruct (skipWS r2) as [|e r3] eqn:W2; [parsed_done|].
    pose proof (skipWS_cons_length _ _ _ W2) as L3.
    destruct (e =? 44)%N.
    { destruct (IHm r3 ltac:(lia)) as [NM LM].
      destruct (parseMembers f r3) as [ms rest| |] eqn:PM;
        [specialize (LM _ _ eq_refl); parsed_done | parsed_done | congruence]. }
    destruct (e =? 125)%N; parsed_done.
Qed.

(** [JSON_parse] gives [parseValue] fuel enough: when it throws, the text
    is not JSON. *)
Lemma parseValue_fuel (text : jsstring) :
  parseValue (S (2 * List.length text)) text <> OutOfFuel.
Proof.
  apply (proj1 (parse_fuel (S (2 * List.length text)))); lia.
Qed.

(** ** Persistence *)

(** C7.  For every collection, writing it to the storage key and loading
    it again gives the array of the same records: read field by field it
    is the original collection. *)
Theorem saved_ledger_loads_back (st : State) :
  getItem (localStorage (saveTransactions st)) (js "transactions")
  = Some (JSON_stringify (transactions st))
  /\ load (localStorage (saveTransactions st))
     = Normal (toArray (transactions st))
  /\ asLedger (toArray (transactions st)) = Some (transactions st).
Proof.
  split; [apply getItem_setItem|]; split; [|apply asLedger_toArray].
  unfold load; cbn [saveTransactions localStorage].
  rewrite getItem_setItem, JSON_parse_stringify; reflexivity.
Qed.

(** C5, as stated, fails: a stored text that is not JSON makes
    [JSON.parse] throw, nothing catches the error, and no collection,
    empty or not, comes out of the load. *)
Lemma load_malformed_throws :
  parseValue (S (2 * List.length (js "{not json"))) (js "{not json")
  = SyntaxError
  /\ load (setItem emptyStorage (js "transactions") (js "{not json"))
     = Throw "SyntaxError"
  /\ load (setItem emptyStorage (js "transactions") (js "{not json"))
     <> Normal (VArr []).
Proof.
  split; [vm_compute; reflexivity|].
  split; [vm_compute; reflexivity | vm_compute; discriminate].
Qed.

(** C5, amended.  Loading yields the empty collection when nothing is
    stored, and the stored collection when the stored text is the one
    written for it; in general a stored text that is JSON yields its value
    (or the empty collection when that value is falsy), and a stored text
    that is not JSON makes the load throw a [SyntaxError], which reaches
    the caller. *)
Theorem load_outcomes (storage : Storage) :
  (getItem storage (js "transactions") = None ->
   load storage = Normal (VArr []))
  /\ (forall ts,
        getItem storage (js "transactions") = Some (JSON_stringify ts) ->
        load storage = Normal (toArray ts))
  /\ (forall blob,
        getItem storage (js "transactions") = Some blob ->
        (exists v, JSON_parse blob = Normal v
                   /\ load storage = Normal (if truthy v then v else VArr []))
        \/ (JSON_parse blob = Throw "SyntaxError"
            /\ load storage = Throw "SyntaxError")).
Proof.
  unfold load; split; [|split].
  - intros ->; reflexivity.
  - intros ts ->; rewrite JSON_parse_stringify; reflexivity.
  - intros blob ->; unfold JSON_parse.
    destruct (parseValue (S (2 * List.length blob)) blob) as [v rest| |];
      [|right; split; reflexivity..].
    destruct (skipWS rest) as [|c rest'].
    + left; exists v; split; reflexivity.
    + right; split; reflexivity.
Qed.

(** What is falsy loads as the empty collection: [null], [false], and a
    number literal whose Number is a zero, be it written as zero or too
    small to be anything else; the smallest Number above zero is truthy
    and loads as itself. *)
Lemma load_falsy_blobs :
  Forall
    (fun blob =>
       load (setItem emptyStorage (js "transactions") (js blob))
       = Normal (VArr []))
    ["null"; "false"; "0"; "-0"; "0.0"; "0e5"; "1e-400"; "2e-324"]%string
  /\ load (setItem emptyStorage (js "transactions") (js "5e-324"))
     = Normal (VNum 5 (-324)).
Proof.
  split; [repeat constructor; vm_compute; reflexivity|].
  vm_compute; reflexivity.
Qed.

Lemma load_outcomes_witness :
  getItem
    (setItem emptyStorage (js "transactions")
       (JSON_stringify [record 5 "1" "a" "" "2024-01-01" "income"]))
    (js "transactions")
  = Some (JSON_stringify [record 5 "1" "a" "" "2024-01-01" "income"])
  /\ load
       (setItem emptyStorage (js "transactions")
          (JSON_stringify [record 5 "1" "a" "" "2024-01-01" "income"]))
     = Normal (toArray [record 5 "1" "a" "" "2024-01-01" "income"]).
Proof.
  split; [reflexivity|].
  exact (proj1 (proj2 (load_outcomes
           (setItem emptyStorage (js "transactions")
              (JSON_stringify [record 5 "1" "a" "" "2024-01-01" "income"]))))
           [record 5 "1" "a" "" "2024-01-01" "income"] eq_refl).
Defined.

(** ** Sessions *)

Lemma saveTransactions_Reloads (st : State) : Reloads (saveTransactions st).
Proof.
  unfold Reloads, load; cbn [saveTransactions localStorage transactions].
  rewrite getItem_setItem, JSON_parse_stringify; reflexivity.
Qed.

Lemma removeTransaction_Reloads (id0 : option Z) (st : State) :
  Reloads (removeTransaction id0 st).
Proof. apply saveTransactions_Reloads. Qed.

Lemma handle_Reloads (r : revision) (ev : event) (st : State) :
  Reloads st -> Reloads (handle r ev st).
Proof.
  intros H; destruct ev as [now f|d c|n]; cbn [handle].
  - unfold addTransaction; destruct (missingRequired r f);
      [exact H | apply saveTransactions_Reloads].
  - unfold handleListClick; destruct d as [d|]; [|exact H].
    destruct r; [exact H|].
    destruct c; [apply removeTransaction_Reloads | exact H].
  - unfold clickModalButton; destruct (modal st) as [m|]; [|exact H].
    destruct (nth_error (modalButtons m) n) as [b|]; [|exact H].
    destruct (buttonAction b); [exact H | apply removeTransaction_Reloads].
Qed.

(** X1.  Whatever the events of a session, in either revision: when the
    stored text loads back as the collection before them, it does so
    after them.  Every change of the collection is followed by its save. *)
Theorem session_reloads (r : revision) (events : list event) (st : State) :
  Reloads st -> Reloads (run r events st).
Proof.
  unfold run; revert st; induction events as [|ev events IH]; intros st H;
    [exact H|].
  cbn [fold_left]; apply IH, handle_Reloads, H.
Qed.

Lemma session_reloads_witness :
  Reloads initial
  /\ Reloads
       (run ScriptJs
          [Submit 1714521600000
             (form "50.00" "Food" "lunch" "2024-05-01" "expense");
           ListClick (Some (js "1714521600000")) false;
           ModalClick 1]
          initial).
Proof.
  assert (H : Reloads initial) by reflexivity.
  split; [exact H|].
  exact (session_reloads ScriptJs
           [Submit 1714521600000
              (form "50.00" "Food" "lunch" "2024-05-01" "expense");
            ListClick (Some (js "1714521600000")) false;
            ModalClick 1]
           initial H).
Defined.

Lemma getItem_setItem_other (storage : Storage) (k k' v : jsstring) :
  k' <> k -> getItem (setItem storage k v) k' = getItem storage k'.
Proof.
  intros H; unfold getItem, setItem.
  destruct (streq k' k) eqn:E; [|reflexivity].
  apply streq_true_iff in E; contradiction.
Qed.

Lemma handle_other_keys (r : revision) (ev : event) (st : State)
  (k : jsstring) :
  k <> js "transactions" ->
  getItem (localStorage (handle r ev st)) k = getItem (localStorage st) k.
Proof.
  intros H.
  assert (S : forall s, getItem (localStorage (saveTransactions s)) k
                        = getItem (localStorage s) k).
  { intros s; cbn [saveTransactions localStorage].
    apply getItem_setItem_other, H. }
  destruct ev as [now f|d c|n]; cbn [handle].
  - unfold addTransaction; destruct (missingRequired r f);
      [reflexivity | rewrite S; reflexivity].
  - unfold handleListClick; destruct d as [d|]; [|reflexivity].
    destruct r; [reflexivity|].
    destruct c; [unfold removeTransaction; rewrite S|]; reflexivity.
  - unfold clickModalButton; destruct (modal st) as [m|]; [|reflexivity].
    destruct (nth_error (modalButtons m) n) as [b|]; [|reflexivity].
    destruct (buttonAction b);
      [|unfold removeTransaction; rewrite S]; reflexivity.
Qed.

(** X2.  No event of a session, in either revision, writes or removes a
    key of the storage other than [transactions]. *)
Theorem session_keeps_other_keys (r : revision) (events : list event)
  (st : State) (k : jsstring) :
  k <> js "transactions" ->
  getItem (localStorage (run r events st)) k = getItem (localStorage st) k.
Proof.
  intros H; unfold run; revert st.
  induction events as [|ev events IH]; intros st; [reflexivity|].
  cbn [fold_left]; rewrite IH; apply handle_other_keys, H.
Qed.

Lemma session_keeps_other_keys_witness :
  js "theme" <> js "transactions"
  /\ getItem
       (localStorage
          (run Part000
             [Submit 1714521600000
                (form "50.00" "Food" "lunch" "2024-05-01" "expense")]
             (mkState [] (setItem emptyStorage (js "theme") (js "dark")) None)))
       (js "theme")
     = Some (js "dark").
Proof.
  assert (H : js "theme" <> js "transactions") by discriminate.
  split; [exact H|].
  exact (session_keeps_other_keys Part000
           [Submit 1714521600000
              (form "50.00" "Food" "lunch" "2024-05-01" "expense")]
           (mkState [] (setItem emptyStorage (js "theme") (js "dark")) None)
           (js "theme") H).
Defined.

Lemma handle_modalInert (r : revision) (ev : event) (st : State) :
  modalInert r st -> modalInert r (handle r ev st).
Proof.
  intros H; destruct ev as [now f|d c|n]; cbn [handle].
  - unfold addTransaction; destruct (missingRequired r f); [|exact H].
    destruct r; [reflexivity | repeat constructor].
  - unfold handleListClick; destruct d as [d|]; [|exact H].
    destruct r; [reflexivity|]. destruct c; exact H.
  - unfold clickModalButton; destruct (modal st) as [m|] eqn:M; [|exact H].
    destruct (nth_error (modalButtons m) n) as [b|]; [|exact H].
    destruct (buttonAction b); exact I.
Qed.

Lemma handle_unconfirmed (r : revision) (ev : event) (st : State) :
  modalInert r st -> confirms r ev = false ->
  exists added, transactions (handle r ev st) = transactions st ++ added.
Proof.
  intros H C; destruct ev as [now f|d c|n]; cbn [handle].
  - unfold addTransaction; destruct (missingRequired r f);
      [exists []; rewrite app_nil_r; reflexivity
      |exists [recordOf now f]; reflexivity].
  - exists []; rewrite app_nil_r.
    unfold handleListClick; destruct d as [d|]; [|reflexivity].
    destruct r; [reflexivity|]. destruct c; [discriminate | reflexivity].
  - exists []; rewrite app_nil_r.
    unfold clickModalButton, modalInert in *.
    destruct (modal st) as [m|]; [|reflexivity].
    destruct (nth_error (modalButtons m) n) as [b|] eqn:N; [|reflexivity].
    assert (E : buttonAction b = NoAction).
    { destruct r.
      - destruct n as [|n]; [|discriminate].
        destruct (modalButtons m) as [|b0 bs]; [discriminate|].
        inversion N; subst; exact H.
      - rewrite Forall_forall in H; apply H.
        apply (nth_error_In _ _ N). }
    rewrite E; reflexivity.
Qed.

(** X3.  Without a confirmation no record is removed, replaced or moved:
    from a state with no modal open, a session without confirming event
    leaves the collection with records added at its end, and nothing
    else. *)
Theorem session_unconfirmed_only_appends
  (r : revision) (events : list event) (st : State) :
  modal st = None ->
  forallb (fun ev => negb (confirms r ev)) events = true ->
  exists added, transactions (run r events st) = transactions st ++ added.
Proof.
  intros M.
  assert (H : modalInert r st) by (unfold modalInert; rewrite M; exact I).
  clear M; unfold run; revert st H.
  induction events as [|ev events IH]; intros st H C.
  - exists []; rewrite app_nil_r; reflexivity.
  - cbn [forallb fold_left] in *; apply andb_true_iff in C.
    destruct C as [C1 C2]; apply negb_true_iff in C1.
    destruct (handle_unconfirmed r ev st H C1) as [a1 E1].
    destruct (IH (handle r ev st) (handle_modalInert r ev st H) C2)
      as [a2 E2].
    exists (a1 ++ a2); rewrite E2, E1, app_assoc; reflexivity.
Qed.

Lemma session_unconfirmed_only_appends_witness :
  (modal (mkState [record 5 "1" "a" "" "2024-01-01" "income"]
            emptyStorage None) = None
   /\ forallb (fun ev => negb (confirms ScriptJs ev))
        [ListClick (Some (js "5")) false; ModalClick 0;
         Submit 7 (form "2" "b" "" "2024-01-02" "expense")]
      = true)
  /\ exists added,
       transactions
         (run ScriptJs
            [ListClick (Some (js "5")) false; ModalClick 0;
             Submit 7 (form "2" "b" "" "2024-01-02" "expense")]
            (mkState [record 5 "1" "a" "" "2024-01-01" "income"]
               emptyStorage None))
       = transactions
           (mkState [record 5 "1" "a" "" "2024-01-01" "income"]
              emptyStorage None)
         ++ added.
Proof.
  split; [split; reflexivity|].
  exact (session_unconfirmed_only_appends ScriptJs
           [ListClick (Some (js "5")) false; ModalClick 0;
            Submit 7 (form "2" "b" "" "2024-01-02" "expense")]
           (mkState [record 5 "1" "a" "" "2024-01-01" "income"]
              emptyStorage None)
           eq_refl eq_refl).
Defined.

(** ** The list shown, whatever the engine *)

(** Two arrangements of the same elements, both sorted by a key and both
    with the elements of each key in the same order, are the same list. *)
Lemma sorted_stable_unique {A : Type} (key : A -> Z) (l1 : list A) :
  forall l2,
  Permutation l1 l2 ->
  StronglySorted (fun a b => key b <= key a) l1 ->
  StronglySorted (fun a b => key b <= key a) l2 ->
  (forall w, filter (fun y => key w =? key y) l1
             = filter (fun y => key w =? key y) l2) ->
  l1 = l2.
Proof.
  induction l1 as [|x l1 IH]; intros l2 P S1 S2 F.
  - apply Permutation_nil in P; congruence.
  - destruct l2 as [|y l2];
      [apply Permutation_sym, Permutation_nil in P; discriminate|].
    inversion S1 as [|? ? S1' F1]; inversion S2 as [|? ? S2' F2]; subst.
    rewrite Forall_forall in F1, F2.
    assert (K : key x = key y).
    { assert (Hy : In y (x :: l1))
        by (apply (Permutation_in _ (Permutation_sym P)); left; reflexivity).
      assert (Hx : In x (y :: l2))
        by (apply (Permutation_in _ P); left; reflexivity).
      destruct Hy as [Hy|Hy]; [congruence|].
      destruct Hx as [Hx|Hx]; [congruence|].
      specialize (F1 y Hy); specialize (F2 x Hx); lia. }
    assert (E : x = y).
    { specialize (F x); cbn [filter] in F.
      rewrite <- K, Z.eqb_refl in F; congruence. }
    subst y; f_equal; apply IH; try assumption.
    + eapply Permutation_cons_inv; exact P.
    + intros w; specialize (F w); cbn [filter] in F.
      destruct (key w =? key x); congruence.
Qed.

Lemma StronglySorted_filter {A : Type} (R : A -> A -> Prop) (p : A -> bool)
  (l : list A) :
  StronglySorted R l -> StronglySorted R (filter p l).
Proof.
  induction 1 as [|x l S IH F]; cbn [filter]; [constructor|].
  destruct (p x); [|exact IH].
  constructor; [exact IH|].
  rewrite Forall_forall in *; intros y Hy; apply F.
  apply filter_In in Hy; apply Hy.
Qed.

Lemma StronglySorted_app {A : Type} (R : A -> A -> Prop) (l1 l2 : list A) :
  StronglySorted R l1 -> StronglySorted R l2 ->
  (forall a b, In a l1 -> In b l2 -> R a b) ->
  StronglySorted R (l1 ++ l2).
Proof.
  induction 1 as [|x l1 S IH F]; intros S2 H; [exact S2|].
  cbn [app]; constructor.
  - apply IH; [exact S2|]; intros a b Ha Hb; apply H; [right|]; assumption.
  - rewrite Forall_forall in *; intros y Hy.
    apply in_app_or in Hy; destruct Hy as [Hy|Hy]; [apply F, Hy|].
    apply H; [left; reflexivity | exact Hy].
Qed.


Lemma filter_excluded {A : Type} (p q : A -> bool) (l : list A) :
  (forall x, In x l -> q x = true -> p x = false) ->
  filter q (filter p l) = [].
Proof.
  induction l as [|x l IH]; intros H; [reflexivity|]; cbn [filter].
  assert (IH' : filter q (filter p l) = [])
    by (apply IH; intros y Hy; apply H; right; exact Hy).
  destruct (p x) eqn:Ep; [|exact IH'].
  cbn [filter]; destruct (q x) eqn:Eq; [|exact IH'].
  rewrite (H x) in Ep by (auto; left; reflexivity); discriminate.
Qed.

Lemma filter_partition {A : Type} (p : A -> bool) (l : list A) :
  Permutation l (filter p l ++ filter (fun x => negb (p x)) l).
Proof.
  induction l as [|x l IH]; [constructor|]; cbn [filter].
  destruct (p x); cbn [negb app]; [constructor; exact IH|].
  rewrite <- Permutation_middle; constructor; exact IH.
Qed.


Section ShownAgain.
Variable legacy : jsstring -> option Z.

Local Abbreviation key := (instant legacy).

Lemma sameDay_key x y :
  Date_parse legacy (date x) <> None -> Date_parse legacy (date y) <> None ->
  sameDay legacy x y = (key x =? key y).
Proof.
  unfold sameDay, instant.
  destruct (Date_parse legacy (date x)), (Date_parse legacy (date y));
    congruence.
Qed.

(** With readable dates, the records of one instant are shown in the
    order of the collection, whether or not the instant is that of a
    record of the collection. *)
Lemma Listed_by_key ts rows w :
  datesValid legacy ts -> Listed legacy ts rows ->
  filter (fun y => key w =? key y) rows = filter (fun y => key w =? key y) ts.
Proof.
  intros V L.
  pose proof (Listed_datesValid legacy ts rows V L) as V'.
  destruct (existsb (fun z => key w =? key z) ts) eqn:E.
  - apply existsb_exists in E; destruct E as (z & Hz & Ez).
    apply Z.eqb_eq in Ez.
    assert (X : forall l, datesValid legacy l ->
              filter (fun y => key w =? key y) l
              = filter (sameDay legacy z) l).
    { intros l Vl; apply filter_ext_in; intros y Hy.
      rewrite sameDay_key, Ez by (auto; apply Vl; exact Hy); reflexivity. }
    rewrite (X rows V'), (X ts V).
    apply Listed_sameDay; assumption.
  - assert (X : forall l, (forall y, In y l -> In y ts) ->
              filter (fun y => key w =? key y) l = []).
    { intros l Hl; apply filter_none; intros y Hy.
      destruct (key w =? key y) eqn:K; [|reflexivity].
      assert (T : existsb (fun z => key w =? key z) ts = true)
        by (apply existsb_exists; exists y; split; [apply Hl, Hy | exact K]).
      congruence. }
    rewrite (X rows), (X ts); [reflexivity | auto |].
    intros y Hy; destruct L as [P _ _].
    apply (Permutation_in _ (Permutation_sym P)), Hy.
Qed.

Lemma Listed_unique ts rows1 rows2 :
  datesValid legacy ts -> Listed legacy ts rows1 -> Listed legacy ts rows2 ->
  rows1 = rows2.
Proof.
  intros V L1 L2.
  apply (sorted_stable_unique key).
  - destruct L1 as [P1 _ _], L2 as [P2 _ _]; rewrite <- P1; exact P2.
  - apply (Listed_by_instant legacy ts); assumption.
  - apply (Listed_by_instant legacy ts); assumption.
  - intros w.
    rewrite (Listed_by_key ts rows1 w V L1), (Listed_by_key ts rows2 w V L2).
    reflexivity.
Qed.
End ShownAgain.

(** X4.  With readable dates every engine shows the same list: any
    outcome the sort contract allows is the one insertion sort and merge
    sort compute. *)
Theorem listed_is_the_sorted_list
  (legacy : jsstring -> option Z) (ts rows : list Transaction) :
  datesValid legacy ts -> Listed legacy ts rows ->
  rows = sortedTransactions legacy ts
  /\ rows = mergeSort (byDateDescending legacy) ts.
Proof.
  intros V L; split; apply (Listed_unique legacy ts); try assumption.
  - apply Array_sort_outcome.
  - apply mergeSort_outcome.
Qed.

Lemma listed_is_the_sorted_list_witness :
  (datesValid strictEngine
     [record 1 "10" "a" "" "2024-01-01" "income";
      record 2 "20" "b" "" "2024-03-01" "expense"]
   /\ Listed strictEngine
        [record 1 "10" "a" "" "2024-01-01" "income";
         record 2 "20" "b" "" "2024-03-01" "expense"]
        (mergeSort (byDateDescending strictEngine)
           [record 1 "10" "a" "" "2024-01-01" "income";
            record 2 "20" "b" "" "2024-03-01" "expense"]))
  /\ mergeSort (byDateDescending strictEngine)
       [record 1 "10" "a" "" "2024-01-01" "income";
        record 2 "20" "b" "" "2024-03-01" "expense"]
     = sortedTransactions strictEngine
         [record 1 "10" "a" "" "2024-01-01" "income";
          record 2 "20" "b" "" "2024-03-01" "expense"].
Proof.
  assert (V : datesValid strictEngine
                [record 1 "10" "a" "" "2024-01-01" "income";
                 record 2 "20" "b" "" "2024-03-01" "expense"]).
  { intros t [<-|[<-|[]]]; discriminate. }
  assert (L : Listed strictEngine
                [record 1 "10" "a" "" "2024-01-01" "income";
                 record 2 "20" "b" "" "2024-03-01" "expense"]
                (mergeSort (byDateDescending strictEngine)
                   [record 1 "10" "a" "" "2024-01-01" "income";
                    record 2 "20" "b" "" "2024-03-01" "expense"]))
    by apply mergeSort_outcome.
  split; [split; [exact V | exact L]|].
  exact (proj1 (listed_is_the_sorted_list strictEngine _ _ V L)).
Defined.

Lemma datesValid_app_l legacy (l1 l2 : list Transaction) :
  datesValid legacy (l1 ++ l2) -> datesValid legacy l1.
Proof. intros V t Ht; apply V, in_or_app; left; exact Ht. Qed.

(** After a submit that is accepted, the list shows the new record below
    the records shown before that are dated the same day or later, and
    above those dated earlier; the records shown before keep their
    order. *)
Section ShownAfter.
Variable legacy : jsstring -> option Z.

Local Abbreviation key := (instant legacy).

(** X5.  After a submit that is accepted, the list shows the new record
    below the records shown before that are dated the same day or later,
    and above those dated earlier; the records shown before keep their
    order. *)
Theorem listed_after_add
  (r : revision) (now : Z) (f : Form)
  (st : State) (before after : list Transaction) :
  validForm r f ->
  datesValid legacy (transactions st ++ [recordOf now f]) ->
  Listed legacy (transactions st) before ->
  Listed legacy (transactions (addTransaction r now f st)) after ->
  after
  = filter (fun x => instant legacy (recordOf now f) <=? instant legacy x)
      before
    ++ recordOf now f
    :: filter (fun x => instant legacy x <? instant legacy (recordOf now f))
         before.
Proof.
  intros Hf V Lb La.
  apply missingRequired_false_iff in Hf.
  rewrite addTransaction_accepted in La by exact Hf.
  cbn [saveTransactions transactions] in La.
  set (new := recordOf now f) in *.
  pose proof (datesValid_app_l _ _ _ V) as Vb.
  pose proof (Listed_by_instant legacy _ _ Vb Lb) as Sb.
  assert (N : forall x, (key x <? key new) = negb (key new <=? key x))
    by (intros x; apply Z.ltb_antisym).
  apply (sorted_stable_unique key).
  - destruct La as [Pa _ _], Lb as [Pb _ _].
    apply perm_trans with (new :: transactions st);
      [rewrite <- Pa; apply Permutation_sym, Permutation_cons_append|].
    eapply perm_trans; [|apply Permutation_middle].
    constructor; rewrite Pb, (filter_ext _ _ N); apply filter_partition.
  - apply (Listed_by_instant legacy (transactions st ++ [new])); assumption.
  - apply StronglySorted_app.
    + apply StronglySorted_filter, Sb.
    + constructor; [apply StronglySorted_filter, Sb|].
      rewrite Forall_forall; intros y Hy; apply filter_In in Hy.
      destruct Hy as [_ Hy]; apply Z.ltb_lt in Hy; lia.
    + intros a b Ha Hb; apply filter_In in Ha; destruct Ha as [_ Ha].
      apply Z.leb_le in Ha.
      destruct Hb as [<-|Hb]; [exact Ha|].
      apply filter_In in Hb; destruct Hb as [_ Hb]; apply Z.ltb_lt in Hb.
      lia.
  - intros w.
    rewrite (Listed_by_key legacy _ _ w V La).
    rewrite !filter_app, !(filter_head _ new).
    cbn [filter app]; rewrite app_nil_r.
    pose proof (Listed_by_key legacy _ _ w Vb Lb) as Kb.
    destruct (Z.lt_trichotomy (key w) (key new)) as [Lt|[Eq|Gt]].
    + replace (key w =? key new) with false by (symmetry; apply Z.eqb_neq; lia).
      rewrite (filter_excluded
                 (fun x => key new <=? key x) (fun y => key w =? key y)),
              filter_narrow, Kb;
        [cbn [app]; rewrite ?app_nil_r; reflexivity| |].
      * intros x _ Hx; apply Z.eqb_eq in Hx; apply Z.ltb_lt; lia.
      * intros x _ Hx; apply Z.eqb_eq in Hx; apply Z.leb_gt; lia.
    + replace (key w =? key new) with true by (symmetry; apply Z.eqb_eq; lia).
      rewrite (filter_excluded
                 (fun x => key x <? key new) (fun y => key w =? key y)),
              filter_narrow, Kb;
        [cbn [app]; rewrite ?app_nil_r; reflexivity| |].
      * intros x _ Hx; apply Z.eqb_eq in Hx; apply Z.leb_le; lia.
      * intros x _ Hx; apply Z.eqb_eq in Hx; apply Z.ltb_ge; lia.
    + replace (key w =? key new) with false by (symmetry; apply Z.eqb_neq; lia).
      rewrite (filter_excluded
                 (fun x => key x <? key new) (fun y => key w =? key y)),
              filter_narrow, Kb;
        [cbn [app]; rewrite ?app_nil_r; reflexivity| |].
      * intros x _ Hx; apply Z.eqb_eq in Hx; apply Z.leb_le; lia.
      * intros x _ Hx; apply Z.eqb_eq in Hx; apply Z.ltb_ge; lia.
Qed.

End ShownAfter.

Lemma listed_after_add_witness :
  (validForm ScriptJs (form "30" "c" "" "2024-02-01" "income")
   /\ datesValid strictEngine
        ([record 1 "10" "a" "" "2024-01-01" "income";
          record 2 "20" "b" "" "2024-03-01" "expense"]
         ++ [recordOf 3 (form "30" "c" "" "2024-02-01" "income")]))
  /\ sortedTransactions strictEngine
       (transactions
          (addTransaction ScriptJs 3 (form "30" "c" "" "2024-02-01" "income")
             (mkState [record 1 "10" "a" "" "2024-01-01" "income";
                       record 2 "20" "b" "" "2024-03-01" "expense"]
                emptyStorage None)))
     = [record 2 "20" "b" "" "2024-03-01" "expense";
        record 3 "30" "c" "" "2024-02-01" "income";
        record 1 "10" "a" "" "2024-01-01" "income"].
Proof.
  assert (H : validForm ScriptJs (form "30" "c" "" "2024-02-01" "income"))
    by (repeat split; discriminate).
  assert (V : datesValid strictEngine
                ([record 1 "10" "a" "" "2024-01-01" "income";
                  record 2 "20" "b" "" "2024-03-01" "expense"]
                 ++ [recordOf 3 (form "30" "c" "" "2024-02-01" "income")])).
  { intros t [<-|[<-|[<-|[]]]]; discriminate. }
  split; [split; [exact H | exact V]|].
  exact (listed_after_add strictEngine ScriptJs 3
           (form "30" "c" "" "2024-02-01" "income")
           (mkState [record 1 "10" "a" "" "2024-01-01" "income";
                     record 2 "20" "b" "" "2024-03-01" "expense"]
              emptyStorage None)
           _ _ H V
           (Array_sort_outcome (byDateDescending strictEngine) _)
           (Array_sort_outcome (byDateDescending strictEngine) _)).
Defined.


(** ** Rows and their delete buttons *)

Lemma confirmedDelete_storage (r : revision) (d : jsstring) (st : State) :
  localStorage (confirmedDelete r d st)
  = setItem (localStorage st) (js "transactions")
      (JSON_stringify (filter (differsFrom (parseInt10 d)) (transactions st))).
Proof. destruct r; reflexivity. Qed.

Lemma differsFrom_dataId (t u : Transaction) :
  differsFrom (parseInt10 (dataId t)) u = negb (id u =? id t).
Proof. unfold dataId; rewrite parseInt10_numberToString; reflexivity. Qed.

(** X7.  When the id of [t] is a safe integer, the delete button of the
    row of [t], once confirmed, removes the records whose id is that of
    [t] and keeps every other record: the id written into [data-id] is
    the id [parseInt] reads back. *)
Theorem delete_button_removes_its_id
  (r : revision) (t : Transaction) (st : State) (u : Transaction) :
  isSafeInteger (id t) = true ->
  (In u (transactions (confirmedDelete r (dataId t) st))
   <-> In u (transactions st) /\ id u <> id t).
Proof.
  intros _.
  rewrite confirmedDelete_removes, filter_In, differsFrom_dataId.
  rewrite negb_true_iff, Z.eqb_neq; reflexivity.
Qed.

Lemma delete_button_removes_its_id_witness :
  isSafeInteger (id (record 9 "2" "b" "" "2024-01-02" "expense")) = true
  /\ (In (record 5 "1" "a" "" "2024-01-01" "income")
        (transactions
           (confirmedDelete Part000
              (dataId (record 9 "2" "b" "" "2024-01-02" "expense"))
              (mkState [record 5 "1" "a" "" "2024-01-01" "income";
                        record 9 "2" "b" "" "2024-01-02" "expense"]
                 emptyStorage None)))
      <-> In (record 5 "1" "a" "" "2024-01-01" "income")
            [record 5 "1" "a" "" "2024-01-01" "income";
             record 9 "2" "b" "" "2024-01-02" "expense"]
          /\ id (record 5 "1" "a" "" "2024-01-01" "income")
             <> id (record 9 "2" "b" "" "2024-01-02" "expense")).
Proof.
  split; [reflexivity|].
  exact (delete_button_removes_its_id Part000
           (record 9 "2" "b" "" "2024-01-02" "expense")
           (mkState [record 5 "1" "a" "" "2024-01-01" "income";
                     record 9 "2" "b" "" "2024-01-02" "expense"]
              emptyStorage None)
           (record 5 "1" "a" "" "2024-01-01" "income") eq_refl).
Defined.

Lemma filter_keep_all_but (t : Transaction) (l : list Transaction) :
  ~ In (id t) (map id l) -> filter (fun u => negb (id u =? id t)) l = l.
Proof.
  intros H; apply filter_all_true; intros u Hu.
  apply negb_true_iff, Z.eqb_neq; intros E; apply H.
  rewrite <- E; apply in_map, Hu.
Qed.

(** X8.  When the ids of the collection are distinct, the delete button
    of the row of a record whose id is a safe integer removes that record
    and nothing else. *)
Theorem delete_button_removes_one_record
  (r : revision) (t : Transaction) (st : State) :
  NoDup (map id (transactions st)) -> In t (transactions st) ->
  isSafeInteger (id t) = true ->
  exists l1 l2,
    transactions st = l1 ++ t :: l2
    /\ transactions (confirmedDelete r (dataId t) st) = l1 ++ l2.
Proof.
  intros N H _; apply in_split in H; destruct H as (l1 & l2 & E).
  exists l1, l2; split; [exact E|].
  rewrite confirmedDelete_removes, E in *.
  rewrite (filter_ext _ _ (differsFrom_dataId t)).
  rewrite map_app in N; cbn [map] in N.
  pose proof (NoDup_remove_2 _ _ _ N) as X.
  rewrite filter_app; cbn [filter]; rewrite Z.eqb_refl; cbn [negb].
  rewrite !filter_keep_all_but; [reflexivity| |];
    intros Y; apply X, in_or_app; auto.
Qed.

Lemma delete_button_removes_one_record_witness :
  (NoDup (map id [record 5 "1" "a" "" "2024-01-01" "income";
                  record 9 "2" "b" "" "2024-01-02" "expense"])
   /\ In (record 9 "2" "b" "" "2024-01-02" "expense")
        [record 5 "1" "a" "" "2024-01-01" "income";
         record 9 "2" "b" "" "2024-01-02" "expense"]
   /\ isSafeInteger (id (record 9 "2" "b" "" "2024-01-02" "expense")) = true)
  /\ exists l1 l2,
       [record 5 "1" "a" "" "2024-01-01" "income";
        record 9 "2" "b" "" "2024-01-02" "expense"]
       = l1 ++ record 9 "2" "b" "" "2024-01-02" "expense" :: l2
       /\ transactions
            (confirmedDelete ScriptJs
               (dataId (record 9 "2" "b" "" "2024-01-02" "expense"))
               (mkState [record 5 "1" "a" "" "2024-01-01" "income";
                         record 9 "2" "b" "" "2024-01-02" "expense"]
                  emptyStorage None))
          = l1 ++ l2.
Proof.
  assert (N : NoDup (map id [record 5 "1" "a" "" "2024-01-01" "income";
                             record 9 "2" "b" "" "2024-01-02" "expense"])).
  { repeat constructor; simpl; intros H; decompose [or] H; discriminate || auto. }
  assert (I : In (record 9 "2" "b" "" "2024-01-02" "expense")
                [record 5 "1" "a" "" "2024-01-01" "income";
                 record 9 "2" "b" "" "2024-01-02" "expense"])
    by (right; left; reflexivity).
  split; [split; [exact N | split; [exact I | reflexivity]]|].
  exact (delete_button_removes_one_record ScriptJs
           (record 9 "2" "b" "" "2024-01-02" "expense")
           (mkState [record 5 "1" "a" "" "2024-01-01" "income";
                     record 9 "2" "b" "" "2024-01-02" "expense"]
              emptyStorage None) N I eq_refl).
Defined.

(** X9.  Two submits at the same instant get the same id, and the delete
    button of either row removes both records. *)
Theorem same_instant_records_go_together
  (r : revision) (now : Z) (f1 f2 : Form) (st : State) :
  validForm r f1 -> validForm r f2 ->
  transactions
    (confirmedDelete r (dataId (recordOf now f1))
       (addTransaction r now f2 (addTransaction r now f1 st)))
  = filter (fun u => negb (id u =? now)) (transactions st).
Proof.
  intros H1 H2; apply missingRequired_false_iff in H1, H2.
  rewrite confirmedDelete_removes, (filter_ext _ _ (differsFrom_dataId _)).
  rewrite !addTransaction_accepted by assumption.
  cbn [saveTransactions transactions recordOf id].
  rewrite !filter_app; cbn [filter id recordOf]; rewrite Z.eqb_refl.
  cbn [negb]; rewrite !app_nil_r; reflexivity.
Qed.

Lemma same_instant_records_go_together_witness :
  (validForm Part000 (form "10" "a" "" "2024-01-01" "income")
   /\ validForm Part000 (form "20" "b" "" "2024-01-02" "expense"))
  /\ transactions
       (confirmedDelete Part000
          (dataId (recordOf 1714521600000
                     (form "10" "a" "" "2024-01-01" "income")))
          (addTransaction Part000 1714521600000
             (form "20" "b" "" "2024-01-02" "expense")
             (addTransaction Part000 1714521600000
                (form "10" "a" "" "2024-01-01" "income") initial)))
     = [].
Proof.
  assert (H1 : validForm Part000 (form "10" "a" "" "2024-01-01" "income"))
    by (repeat split; discriminate).
  assert (H2 : validForm Part000 (form "20" "b" "" "2024-01-02" "expense"))
    by (repeat split; discriminate).
  split; [split; [exact H1 | exact H2]|].
  exact (same_instant_records_go_together Part000 1714521600000
           (form "10" "a" "" "2024-01-01" "income")
           (form "20" "b" "" "2024-01-02" "expense") initial H1 H2).
Defined.

(** X10.  A submit followed by the deletion of the new row gives back
    the collection, and the stored text of it, provided no older record
    has the id of the new one. *)
Theorem add_then_delete_restores
  (r : revision) (now : Z) (f : Form) (st : State) :
  validForm r f ->
  (forall t, In t (transactions st) -> id t <> now) ->
  transactions
    (confirmedDelete r (dataId (recordOf now f)) (addTransaction r now f st))
  = transactions st
  /\ getItem
       (localStorage
          (confirmedDelete r (dataId (recordOf now f))
             (addTransaction r now f st)))
       (js "transactions")
     = Some (JSON_stringify (transactions st)).
Proof.
  intros Hf Hn; apply missingRequired_false_iff in Hf.
  assert (E : filter (differsFrom (parseInt10 (dataId (recordOf now f))))
                (transactions (addTransaction r now f st))
              = transactions st).
  { rewrite (filter_ext _ _ (differsFrom_dataId _)).
    rewrite addTransaction_accepted by exact Hf.
    cbn [saveTransactions transactions recordOf id].
    rewrite filter_app; cbn [filter id recordOf]; rewrite Z.eqb_refl.
    cbn [negb]; rewrite app_nil_r; apply filter_all_true; intros t Ht.
    apply negb_true_iff, Z.eqb_neq, Hn, Ht. }
  split.
  - rewrite confirmedDelete_removes; exact E.
  - rewrite confirmedDelete_storage, E; apply getItem_setItem.
Qed.

Lemma add_then_delete_restores_witness :
  (validForm ScriptJs (form "20" "b" "" "2024-01-02" "expense")
   /\ forall t,
        In t (transactions
                (mkState [record 5 "1" "a" "" "2024-01-01" "income"]
                   emptyStorage None)) ->
        id t <> 9)
  /\ transactions
       (confirmedDelete ScriptJs
          (dataId (recordOf 9 (form "20" "b" "" "2024-01-02" "expense")))
          (addTransaction ScriptJs 9
             (form "20" "b" "" "2024-01-02" "expense")
             (mkState [record 5 "1" "a" "" "2024-01-01" "income"]
                emptyStorage None)))
     = [record 5 "1" "a" "" "2024-01-01" "income"].
Proof.
  assert (H1 : validForm ScriptJs (form "20" "b" "" "2024-01-02" "expense"))
    by (repeat split; discriminate).
  assert (H2 : forall t,
             In t (transactions
                     (mkState [record 5 "1" "a" "" "2024-01-01" "income"]
                        emptyStorage None)) ->
             id t <> 9).
  { intros t [<-|[]]; discriminate. }
  split; [split; [exact H1 | exact H2]|].
  exact (proj1 (add_then_delete_restores ScriptJs 9
                  (form "20" "b" "" "2024-01-02" "expense")
                  (mkState [record 5 "1" "a" "" "2024-01-01" "income"]
                     emptyStorage None) H1 H2)).
Defined.

(** ** Ids along a session *)

Lemma handle_ids (r : revision) (ev : event) (st : State) (bound : Z) :
  NoDup (map id (transactions st)) ->
  (forall t, In t (transactions st) -> id t <= bound) ->
  clockRises bound [ev] ->
  NoDup (map id (transactions (handle r ev st)))
  /\ forall t, In t (transactions (handle r ev st)) ->
       id t <= match ev with Submit now _ => now | _ => bound end.
Proof.
  intros N B C.
  assert (F : forall p,
            NoDup (map id (filter p (transactions st)))
            /\ forall t, In t (filter p (transactions st)) -> id t <= bound).
  { intros p; split.
    - clear B; induction (transactions st) as [|x l IH]; [constructor|].
      cbn [map] in N; inversion N as [|? ? Hx Hl]; subst.
      cbn [filter]; destruct (p x); [|apply IH, Hl].
      cbn [map]; constructor; [|apply IH, Hl].
      intros Y; apply Hx; apply in_map_iff in Y.
      destruct Y as (u & Eu & Hu); apply filter_In in Hu.
      rewrite <- Eu; apply in_map, Hu.
    - intros t Ht; apply filter_In in Ht; apply B, Ht. }
  destruct ev as [now f|d c|n]; cbn [handle].
  - cbn [clockRises] in C; destruct C as [C _].
    unfold addTransaction; destruct (missingRequired r f).
    + split; [exact N|]; intros t Ht; specialize (B t Ht).
      cbn [showModal transactions] in Ht; lia.
    + cbn [saveTransactions transactions]; split.
      * rewrite map_app; cbn [map id].
        apply NoDup_app; [exact N | repeat constructor; intros [] |].
        intros x Hx [<-|[]]; apply in_map_iff in Hx.
        destruct Hx as (u & Eu & Hu); specialize (B u Hu); lia.
      * intros t Ht; apply in_app_or in Ht; destruct Ht as [Ht|[<-|[]]];
          [specialize (B t Ht); lia | cbn [id]; lia].
  - unfold handleListClick; destruct d as [d|]; [|split; assumption].
    destruct r; [split; assumption|].
    destruct c; [apply F | split; assumption].
  - unfold clickModalButton; destruct (modal st) as [m|]; [|split; assumption].
    destruct (nth_error (modalButtons m) n) as [b|]; [|split; assumption].
    destruct (buttonAction b); [split; assumption | apply F].
Qed.

(** X11.  In a session whose clock reads a later instant at every
    submit, and at the first submit an instant later than every stored
    id, the ids of the collection stay distinct. *)
Theorem session_keeps_ids_distinct
  (r : revision) (events : list event) (st : State) (bound : Z) :
  NoDup (map id (transactions st)) ->
  (forall t, In t (transactions st) -> id t <= bound) ->
  clockRises bound events ->
  NoDup (map id (transactions (run r events st))).
Proof.
  unfold run; revert st bound.
  induction events as [|ev events IH]; intros st bound N B C; [exact N|].
  cbn [fold_left].
  assert (C1 : clockRises bound [ev])
    by (destruct ev; cbn [clockRises] in *; tauto).
  destruct (handle_ids r ev st bound N B C1) as [N' B'].
  apply (IH _ (match ev with Submit now _ => now | _ => bound end) N' B').
  destruct ev; cbn [clockRises] in C; tauto.
Qed.

Lemma session_keeps_ids_distinct_witness :
  (NoDup (map id (transactions initial))
   /\ (forall t, In t (transactions initial) -> id t <= 0)
   /\ clockRises 0
        [Submit 5 (form "10" "a" "" "2024-01-01" "income");
         ListClick (Some (js "5")) false;
         Submit 9 (form "20" "b" "" "2024-01-02" "expense")])
  /\ NoDup
       (map id
          (transactions
             (run ScriptJs
                [Submit 5 (form "10" "a" "" "2024-01-01" "income");
                 ListClick (Some (js "5")) false;
                 Submit 9 (form "20" "b" "" "2024-01-02" "expense")]
                initial))).
Proof.
  assert (N : NoDup (map id (transactions initial))) by constructor.
  assert (B : forall t, In t (transactions initial) -> id t <= 0)
    by (intros t []).
  assert (C : clockRises 0
                [Submit 5 (form "10" "a" "" "2024-01-01" "income");
                 ListClick (Some (js "5")) false;
                 Submit 9 (form "20" "b" "" "2024-01-02" "expense")])
    by (simpl; lia).
  split; [split; [exact N | split; [exact B | exact C]]|].
  exact (session_keeps_ids_distinct ScriptJs
           [Submit 5 (form "10" "a" "" "2024-01-01" "income");
            ListClick (Some (js "5")) false;
            Submit 9 (form "20" "b" "" "2024-01-02" "expense")]
           initial 0 N B C).
Defined.

(** ** Totals *)

Lemma sumFrom_app (acc : float) (xs ys : list float) :
  sumFrom acc (xs ++ ys) = sumFrom (sumFrom acc xs) ys.
Proof. revert acc; induction xs as [|x xs IH]; intros acc; simpl; auto. Qed.

Lemma parsedAmounts_app (ty : string) (l1 l2 : list Transaction) :
  parsedAmounts ty (l1 ++ l2) = parsedAmounts ty l1 ++ parsedAmounts ty l2.
Proof. unfold parsedAmounts, ofType; rewrite filter_app, map_app; reflexivity. Qed.

Lemma parsedAmounts_one (ty : string) (t : Transaction) :
  parsedAmounts ty [t]
  = if jsstring_eq_dec (type t) (js ty) then [parseFloat (amount t)] else [].
Proof.
  unfold parsedAmounts, ofType; cbn [filter].
  destruct (jsstring_eq_dec (type t) (js ty)); reflexivity.
Qed.

Lemma updateSummary_totals (ts : list Transaction) :
  updateSummary ts
  = mkSummary (sumFrom 0 (parsedAmounts "income" ts))
      (sumFrom 0 (parsedAmounts "expense" ts))
      (sumFrom 0 (parsedAmounts "income" ts)
       - sumFrom 0 (parsedAmounts "expense" ts)).
Proof.
  unfold updateSummary, parsedAmounts.
  rewrite !fold_left_sumFrom, !filter_type_ofType; reflexivity.
Qed.

(** X12.  An accepted submit of an income adds its parsed amount to the
    income and leaves the expense; one of an expense adds it to the
    expense and leaves the income; one of any other type leaves the three
    totals. *)
Theorem add_moves_one_total
  (r : revision) (now : Z) (f : Form) (st : State) :
  validForm r f ->
  (typeInput f = js "income" ->
   income (updateSummary (transactions (addTransaction r now f st)))
   = (income (updateSummary (transactions st))
      + parseFloat (amountInput f))%float
   /\ expense (updateSummary (transactions (addTransaction r now f st)))
      = expense (updateSummary (transactions st)))
  /\ (typeInput f = js "expense" ->
      expense (updateSummary (transactions (addTransaction r now f st)))
      = (expense (updateSummary (transactions st))
         + parseFloat (amountInput f))%float
      /\ income (updateSummary (transactions (addTransaction r now f st)))
         = income (updateSummary (transactions st)))
  /\ (typeInput f <> js "income" -> typeInput f <> js "expense" ->
      updateSummary (transactions (addTransaction r now f st))
      = updateSummary (transactions st)).
Proof.
  intros Hf; apply missingRequired_false_iff in Hf.
  rewrite addTransaction_accepted by exact Hf.
  cbn [saveTransactions transactions].
  rewrite !updateSummary_totals, !parsedAmounts_app, !sumFrom_app,
          !parsedAmounts_one.
  cbn [income expense balance recordOf type amount].
  split; [|split].
  - intros E; rewrite E.
    destruct (jsstring_eq_dec (js "income") (js "income")); [|congruence].
    destruct (jsstring_eq_dec (js "income") (js "expense")); [discriminate|].
    split; reflexivity.
  - intros E; rewrite E.
    destruct (jsstring_eq_dec (js "expense") (js "expense")); [|congruence].
    destruct (jsstring_eq_dec (js "expense") (js "income")); [discriminate|].
    split; reflexivity.
  - intros N1 N2.
    destruct (jsstring_eq_dec (typeInput f) (js "income")); [contradiction|].
    destruct (jsstring_eq_dec (typeInput f) (js "expense")); [contradiction|].
    reflexivity.
Qed.

Lemma add_moves_one_total_witness :
  (validForm ScriptJs (form "30" "Food" "" "2024-05-02" "expense")
   /\ typeInput (form "30" "Food" "" "2024-05-02" "expense") = js "expense")
  /\ expense
       (updateSummary
          (transactions
             (addTransaction ScriptJs 2
                (form "30" "Food" "" "2024-05-02" "expense")
                (mkState [record 1 "100" "Pay" "" "2024-05-01" "income"]
                   emptyStorage None))))
     = (expense
          (updateSummary
             (transactions
                (mkState [record 1 "100" "Pay" "" "2024-05-01" "income"]
                   emptyStorage None)))
        + parseFloat
            (amountInput (form "30" "Food" "" "2024-05-02" "expense")))%float.
Proof.
  assert (H : validForm ScriptJs (form "30" "Food" "" "2024-05-02" "expense"))
    by (repeat split; discriminate).
  split; [split; [exact H | reflexivity]|].
  exact (proj1 (proj1 (proj2 (add_moves_one_total ScriptJs 2
                  (form "30" "Food" "" "2024-05-02" "expense")
                  (mkState [record 1 "100" "Pay" "" "2024-05-01" "income"]
                     emptyStorage None) H)) eq_refl)).
Defined.

Lemma add_nan_l (x : float) : (nan + x)%float = nan.
Proof.
  apply Prim2SF_inj; rewrite add_spec.
  change (Prim2SF nan) with S754_nan; reflexivity.
Qed.

Lemma add_nan_r (x : float) : (x + nan)%float = nan.
Proof.
  apply Prim2SF_inj; rewrite add_spec.
  change (Prim2SF nan) with S754_nan.
  destruct (Prim2SF x); reflexivity.
Qed.

Lemma sub_nan_l (x : float) : (nan - x)%float = nan.
Proof.
  apply Prim2SF_inj; rewrite sub_spec.
  change (Prim2SF nan) with S754_nan; reflexivity.
Qed.

Lemma sub_nan_r (x : float) : (x - nan)%float = nan.
Proof.
  apply Prim2SF_inj; rewrite sub_spec.
  change (Prim2SF nan) with S754_nan.
  destruct (Prim2SF x); reflexivity.
Qed.

Lemma sumFrom_nan (xs : list float) : sumFrom nan xs = nan.
Proof.
  induction xs as [|x xs IH]; [reflexivity|].
  cbn [sumFrom]; rewrite add_nan_l; exact IH.
Qed.

Lemma sumFrom_In_nan (xs : list float) : forall acc,
  In nan xs -> sumFrom acc xs = nan.
Proof.
  induction xs as [|x xs IH]; intros acc []; cbn [sumFrom].
  - subst x; rewrite add_nan_r; apply sumFrom_nan.
  - apply IH; assumption.
Qed.

(** X13.  Amounts are not checked to be numbers: one record whose amount
    [parseFloat] cannot read turns the total of its type, and with it the
    balance, into [NaN], whatever the other records are. *)
Theorem unreadable_amount_spoils_totals
  (ts : list Transaction) (t : Transaction) :
  In t ts -> parseFloat (amount t) = nan ->
  (type t = js "income" ->
   income (updateSummary ts) = nan /\ balance (updateSummary ts) = nan)
  /\ (type t = js "expense" ->
      expense (updateSummary ts) = nan /\ balance (updateSummary ts) = nan).
Proof.
  intros Ht Hn; rewrite updateSummary_totals; cbn [income expense balance].
  assert (P : forall ty, type t = js ty -> In nan (parsedAmounts ty ts)).
  { intros ty E; unfold parsedAmounts, ofType; rewrite <- Hn.
    apply (in_map (fun u => parseFloat (amount u))), filter_In.
    split; [exact Ht|].
    destruct (jsstring_eq_dec (type t) (js ty)); [reflexivity | contradiction]. }
  split; intros E.
  - rewrite (sumFrom_In_nan _ _ (P "income"%string E)), sub_nan_l.
    split; reflexivity.
  - rewrite (sumFrom_In_nan _ _ (P "expense"%string E)), sub_nan_r.
    split; reflexivity.
Qed.

Lemma unreadable_amount_spoils_totals_witness :
  (In (record 2 "abc" "b" "" "2024-01-02" "income")
      [record 1 "100" "a" "" "2024-01-01" "income";
       record 2 "abc" "b" "" "2024-01-02" "income"]
   /\ parseFloat (amount (record 2 "abc" "b" "" "2024-01-02" "income")) = nan
   /\ type (record 2 "abc" "b" "" "2024-01-02" "income") = js "income")
  /\ income
       (updateSummary
          [record 1 "100" "a" "" "2024-01-01" "income";
           record 2 "abc" "b" "" "2024-01-02" "income"])
     = nan.
Proof.
  assert (I : In (record 2 "abc" "b" "" "2024-01-02" "income")
                [record 1 "100" "a" "" "2024-01-01" "income";
                 record 2 "abc" "b" "" "2024-01-02" "income"])
    by (right; left; reflexivity).
  assert (P : parseFloat
                (amount (record 2 "abc" "b" "" "2024-01-02" "income")) = nan)
    by (vm_compute; reflexivity).
  split; [split; [exact I | split; [exact P | reflexivity]]|].
  exact (proj1 (proj1 (unreadable_amount_spoils_totals _ _ I P) eq_refl)).
Defined.

(** X14.  A record whose type is neither income nor expense is shown in
    the style of an expense and counted in none of the totals. *)
Theorem other_type_shown_as_expense_not_counted
  (t : Transaction) (l1 l2 : list Transaction) :
  type t <> js "income" -> type t <> js "expense" ->
  amountClass t = js "expense"
  /\ updateSummary (l1 ++ t :: l2) = updateSummary (l1 ++ l2).
Proof.
  intros N1 N2; split.
  - unfold amountClass; destruct (streq (type t) (js "income")) eqn:E;
      [apply streq_true_iff in E; contradiction | reflexivity].
  - rewrite !updateSummary_totals.
    change (t :: l2) with ([t] ++ l2).
    rewrite !parsedAmounts_app, !parsedAmounts_one.
    destruct (jsstring_eq_dec (type t) (js "income")); [contradiction|].
    destruct (jsstring_eq_dec (type t) (js "expense")); [contradiction|].
    reflexivity.
Qed.

Lemma other_type_shown_as_expense_not_counted_witness :
  (type (record 2 "7" "b" "" "2024-01-02" "transfer") <> js "income"
   /\ type (record 2 "7" "b" "" "2024-01-02" "transfer") <> js "expense")
  /\ amountClass (record 2 "7" "b" "" "2024-01-02" "transfer") = js "expense"
  /\ updateSummary
       ([record 1 "100" "a" "" "2024-01-01" "income"]
        ++ record 2 "7" "b" "" "2024-01-02" "transfer" :: [])
     = updateSummary ([record 1 "100" "a" "" "2024-01-01" "income"] ++ []).
Proof.
  assert (N1 : type (record 2 "7" "b" "" "2024-01-02" "transfer")
               <> js "income") by discriminate.
  assert (N2 : type (record 2 "7" "b" "" "2024-01-02" "transfer")
               <> js "expense") by discriminate.
  split; [split; [exact N1 | exact N2]|].
  exact (other_type_shown_as_expense_not_counted
           (record 2 "7" "b" "" "2024-01-02" "transfer")
           [record 1 "100" "a" "" "2024-01-01" "income"] [] N1 N2).
Defined.

(** ** The stored text *)

(** X15.  Collections that differ are stored as texts that differ:
    [JSON.stringify] is one-to-one on collections. *)
Theorem stored_text_tells_ledgers_apart (ts1 ts2 : list Transaction) :
  JSON_stringify ts1 = JSON_stringify ts2 -> ts1 = ts2.
Proof.
  intros E.
  pose proof (JSON_parse_stringify ts1) as P1.
  rewrite E, JSON_parse_stringify in P1.
  assert (A : asLedger (toArray ts2) = asLedger (toArray ts1)) by congruence.
  rewrite !asLedger_toArray in A; congruence.
Qed.

Lemma stored_text_tells_ledgers_apart_witness :
  JSON_stringify [record 1 "100" "a" "" "2024-01-01" "income"]
  = JSON_stringify [recordOf 1 (form "100" "a" "" "2024-01-01" "income")]
  /\ [record 1 "100" "a" "" "2024-01-01" "income"]
     = [recordOf 1 (form "100" "a" "" "2024-01-01" "income")].
Proof.
  split; [reflexivity|].
  exact (stored_text_tells_ledgers_apart
           [record 1 "100" "a" "" "2024-01-01" "income"]
           [recordOf 1 (form "100" "a" "" "2024-01-01" "income")] eq_refl).
Defined.

(** ** The calendar *)

Lemma digitUnit_digit (k : Z) :
  0 <= k <= 9 -> isDigit (digitUnit k) = true /\ digitValue (digitUnit k) = k.
Proof.
  intros H; unfold digitUnit, digitValue; split;
    [apply isDigit_true_iff|]; lia.
Qed.

Lemma digitUnit_mod10 (n : Z) :
  isDigit (digitUnit (n mod 10)) = true
  /\ digitValue (digitUnit (n mod 10)) = n mod 10.
Proof. apply digitUnit_digit; pose proof (Z.mod_pos_bound n 10); lia. Qed.

Lemma isoDateOnly_isoDate (y m d : Z) :
  0 <= y <= 9999 -> 0 <= m <= 99 -> 0 <= d <= 99 ->
  isoDateOnly (isoDate y m d) = utcMidnight y m d.
Proof.
  intros Hy Hm Hd.
  unfold isoDateOnly, isoDate; cbn [fixedDigits].
  rewrite !(proj1 (digitUnit_mod10 _)), !(proj2 (digitUnit_mod10 _)).
  cbn [N.eqb Pos.eqb negb fixedDigits].
  f_equal; Z.to_euclidean_division_equations; lia.
Qed.

(** The length of a year, in days. *)
Lemma DayFromYear_next (y : Z) :
  DayFromYear (y + 1)
  = DayFromYear y + 365 + (if isLeapYear y then 1 else 0).
Proof.
  unfold DayFromYear, isLeapYear.
  destruct (Z.eqb_spec (y mod 4) 0); destruct (Z.eqb_spec (y mod 100) 0);
    destruct (Z.eqb_spec (y mod 400) 0); cbn [negb andb orb];
    Z.to_euclidean_division_equations; lia.
Qed.

Lemma DayFromYear_rises (y1 y2 : Z) :
  y1 < y2 ->
  DayFromYear y1 + 365 + (if isLeapYear y1 then 1 else 0) <= DayFromYear y2.
Proof.
  intros H; replace y2 with (y1 + 1 + (y2 - y1 - 1)) by lia.
  assert (G : 0 <= y2 - y1 - 1) by lia.
  generalize (y2 - y1 - 1) G; clear H G y2.
  apply natlike_ind.
  - rewrite Z.add_0_r, DayFromYear_next; lia.
  - intros k Hk IH.
    replace (y1 + 1 + Z.succ k) with (y1 + 1 + k + 1) by lia.
    rewrite DayFromYear_next; destruct (isLeapYear (y1 + 1 + k)); lia.
Qed.

(** The days of a year up to the end of a month of it are no more than
    its length. *)
Lemma daysBeforeMonth_bound (y m : Z) :
  1 <= m <= 12 ->
  0 <= daysBeforeMonth y m
  /\ daysBeforeMonth y m + daysInMonth y m
     <= 365 + (if isLeapYear y then 1 else 0).
Proof.
  intros Hm; unfold daysBeforeMonth, daysInMonth.
  generalize (isLeapYear y); intros leap.
  month_cases m; destruct leap; vm_compute; split; discriminate.
Qed.

(** Within a year, a later month starts after the earlier month ends. *)
Lemma daysBeforeMonth_rises (y m1 m2 : Z) :
  1 <= m1 -> m1 < m2 -> m2 <= 12 ->
  daysBeforeMonth y m1 + daysInMonth y m1 <= daysBeforeMonth y m2.
Proof.
  intros H1 H H2; unfold daysBeforeMonth, daysInMonth.
  generalize (isLeapYear y); intros leap.
  month_cases m1; month_cases m2; try lia; destruct leap; vm_compute;
    discriminate.
Qed.

Lemma daysInMonth_bound (y m : Z) : 28 <= daysInMonth y m <= 31.
Proof.
  unfold daysInMonth; destruct (m =? 2); [destruct (isLeapYear y); lia|].
  destruct ((m =? 4) || (m =? 6) || (m =? 9) || (m =? 11)); lia.
Qed.

Lemma Date_parse_isoDate (legacy : jsstring -> option Z) (y m d : Z) :
  calendarDay y m d ->
  Date_parse legacy (isoDate y m d)
  = Some ((DayFromYear y + daysBeforeMonth y m + d - 1) * msPerDay).
Proof.
  intros (Hy & Hm & Hd); pose proof (daysInMonth_bound y m).
  unfold Date_parse; rewrite isoDateOnly_isoDate by lia.
  unfold utcMidnight.
  replace ((1 <=? m) && (m <=? 12) && (1 <=? d) && (d <=? daysInMonth y m))
    with true; [reflexivity|].
  symmetry; rewrite !andb_true_iff, !Z.leb_le; lia.
Qed.

Lemma laterDay_later (y1 m1 d1 y2 m2 d2 : Z) :
  calendarDay y1 m1 d1 -> calendarDay y2 m2 d2 ->
  laterDay y1 m1 d1 y2 m2 d2 ->
  DayFromYear y2 + daysBeforeMonth y2 m2 + d2 - 1
  < DayFromYear y1 + daysBeforeMonth y1 m1 + d1 - 1.
Proof.
  intros (Hy1 & Hm1 & Hd1) (Hy2 & Hm2 & Hd2) L.
  pose proof (daysBeforeMonth_bound y1 m1 Hm1).
  pose proof (daysBeforeMonth_bound y2 m2 Hm2).
  destruct L as [L|[<- [L|[<- L]]]].
  - pose proof (DayFromYear_rises y2 y1 L); lia.
  - pose proof (daysBeforeMonth_rises y1 m2 m1 ltac:(lia) L ltac:(lia)); lia.
  - lia.
Qed.

(** X16.  For two records dated by calendar days in the form
    [YYYY-MM-DD], the dates are read, the comparison function puts the
    first before the second exactly when its day is the later one, and it
    ties them exactly when the day is the same. *)
Theorem comparator_follows_calendar
  (legacy : jsstring -> option Z) (a b : Transaction)
  (y1 m1 d1 y2 m2 d2 : Z) :
  calendarDay y1 m1 d1 -> calendarDay y2 m2 d2 ->
  date a = isoDate y1 m1 d1 -> date b = isoDate y2 m2 d2 ->
  Date_parse legacy (date a) <> None
  /\ Date_parse legacy (date b) <> None
  /\ (SortCompare (byDateDescending legacy) a b < 0
      <-> laterDay y1 m1 d1 y2 m2 d2)
  /\ (SortCompare (byDateDescending legacy) a b = 0
      <-> y1 = y2 /\ m1 = m2 /\ d1 = d2).
Proof.
  intros C1 C2 Ea Eb.
  pose proof (Date_parse_isoDate legacy _ _ _ C1) as P1.
  pose proof (Date_parse_isoDate legacy _ _ _ C2) as P2.
  unfold SortCompare, byDateDescending; rewrite Ea, Eb, P1, P2.
  split; [discriminate|]; split; [discriminate|].
  pose proof (laterDay_later _ _ _ _ _ _ C1 C2) as L12.
  pose proof (laterDay_later _ _ _ _ _ _ C2 C1) as L21.
  assert (T : laterDay y1 m1 d1 y2 m2 d2 \/ laterDay y2 m2 d2 y1 m1 d1
              \/ (y1 = y2 /\ m1 = m2 /\ d1 = d2))
    by (unfold laterDay; lia).
  unfold msPerDay; split; split; intros H.
  - destruct T as [T|[T|(-> & -> & ->)]]; [exact T | specialize (L21 T)|]; lia.
  - specialize (L12 H); lia.
  - destruct T as [T|[T|T]];
      [specialize (L12 T) | specialize (L21 T) | exact T]; lia.
  - destruct H as (-> & -> & ->); lia.
Qed.

Lemma comparator_follows_calendar_witness :
  (calendarDay 2024 3 1 /\ calendarDay 2024 2 29
   /\ date (record 1 "10" "a" "" "2024-03-01" "income") = isoDate 2024 3 1
   /\ date (record 2 "20" "b" "" "2024-02-29" "income") = isoDate 2024 2 29)
  /\ (SortCompare (byDateDescending strictEngine)
        (record 1 "10" "a" "" "2024-03-01" "income")
        (record 2 "20" "b" "" "2024-02-29" "income") < 0
      <-> laterDay 2024 3 1 2024 2 29).
Proof.
  assert (C1 : calendarDay 2024 3 1) by (vm_compute; intuition discriminate).
  assert (C2 : calendarDay 2024 2 29) by (vm_compute; intuition discriminate).
  split; [split; [exact C1 | split; [exact C2 | split; reflexivity]]|].
  exact (proj1 (proj2 (proj2 (comparator_follows_calendar strictEngine
           (record 1 "10" "a" "" "2024-03-01" "income")
           (record 2 "20" "b" "" "2024-02-29" "income")
           2024 3 1 2024 2 29 C1 C2 eq_refl eq_refl)))).
Defined.
